(** * phantom-snap: the PhantomJS process session ([phantom_snap/phantom.py])

    A shallow embedding of [PhantomJSRenderer]: its constructor, with the
    configuration merge and the checks of the executable and the script,
    [render], [shutdown], the signal handler and the helpers they call,
    [_which] among them; and of [PipeReader], the drain of the worker's
    diagnostic stream.

    The renderer talks to a child process, a lock, a logger and a queue fed
    by a thread.  None of these is computed here: every call that leaves the
    Python object ([subprocess.Popen], a write to a pipe, a bounded
    [readline], [poll], ...) takes its outcome from a [world] record, and
    leaves an [event] in a trace, so that a method is a function from the
    session fields and the outcomes of its external calls to the new fields,
    the trace and the value returned or the exception raised.

    What the model takes for granted:
    - one method call runs from start to end on its own: two threads inside
      a method at once are outside this model, the outcome of acquiring the
      guard is an input;
    - text is a [string] of bytes; what the worker prints may hold any
      byte, and fails to join with [unicode] text when it is not ASCII,
      while the texts of the configuration are [unicode] and those of
      exceptions and tracebacks are ASCII; numbers of seconds are integers;
    - the calls that have no outcome in [world] do not raise: logging,
      [poll], [terminate], [kill], the construction of a [PipeReader] and
      its [shutdown];
    - the host is a POSIX one: a path is split at its slashes, the search
      path at its colons;
    - the thread of a [PipeReader] and the session take turns, a [put] or a
      [get] on the queue being one step. *)

From Stdlib Require Import ZArith String List Lia DecimalString.
From stdpp Require Import base option gmap strings list.

Set Warnings "-register-all".
Open Scope string_scope.
Open Scope Z_scope.

(** ** Python values *)

(** An exception object: its class and its message ([str(e)]). *)
Record exn := Exn { exn_class : string; exn_msg : string }.

Definition str_exn (e : exn) : string := exn_msg e.

Definition TypeError (m : string) : exn := Exn "TypeError" m.
Definition KeyError (m : string) : exn := Exn "KeyError" m.
Definition AttributeError (m : string) : exn := Exn "AttributeError" m.

(** What [json.loads] builds, and what the request and response dicts hold.
    Python's [None] is [JNull]; a float is kept by its bit pattern, it is
    only ever copied. *)
Inductive json :=
| JNull
| JBool (b : bool)
| JInt (n : Z)
| JFloat (bits : Z)
| JStr (s : string)
| JArr (l : list json)
| JObj (m : gmap string json).

(** [str(n)] for an integer. *)
Definition str_Z (n : Z) : string := NilEmpty.string_of_int (Z.to_int n).

(** [needle in hay] for two strings: substring test. *)
Fixpoint is_substring (needle hay : string) : bool :=
  if String.prefix needle hay then true
  else match hay with
       | EmptyString => false
       | String _ rest => is_substring needle rest
       end.

Definition is_str (key : string) (v : json) : bool :=
  match v with
  | JStr s => bool_decide (s = key)
  | _ => false
  end.

(** [key in v], with [key] a string, for each type [json.loads] can return:
    key membership for a dict, element membership for a list, substring for
    a string, [TypeError] for the rest. *)
Definition py_contains (key : string) (v : json) : exn + bool :=
  match v with
  | JObj m => inr (bool_decide (is_Some (m !! key)))
  | JArr l => inr (existsb (is_str key) l)
  | JStr s => inr (is_substring key s)
  | JNull => inl (TypeError "argument of type 'NoneType' is not iterable")
  | JBool _ => inl (TypeError "argument of type 'bool' is not iterable")
  | JInt _ => inl (TypeError "argument of type 'int' is not iterable")
  | JFloat _ => inl (TypeError "argument of type 'float' is not iterable")
  end.

(** [v[key]], with [key] a string. *)
Definition py_getitem (v : json) (key : string) : exn + json :=
  match v with
  | JObj m => match m !! key with
              | Some x => inr x
              | None => inl (KeyError key)
              end
  | JArr _ => inl (TypeError "list indices must be integers, not unicode")
  | JStr _ => inl (TypeError "string indices must be integers")
  | JNull => inl (TypeError "'NoneType' object has no attribute '__getitem__'")
  | JBool _ => inl (TypeError "'bool' object has no attribute '__getitem__'")
  | JInt _ => inl (TypeError "'int' object has no attribute '__getitem__'")
  | JFloat _ => inl (TypeError "'float' object has no attribute '__getitem__'")
  end.

(** *** Byte strings and unicode text

    The session runs under Python 2: what it reads from the worker is a
    [str], a string of bytes, while its own literals are [unicode].  Where
    the two meet the bytes are decoded as ASCII, and a byte of 128 or more
    raises [UnicodeDecodeError]. *)

Definition is_ascii_byte (c : Ascii.ascii) : bool :=
  (Ascii.nat_of_ascii c <? 128)%nat.

Fixpoint is_ascii (s : string) : bool :=
  match s with
  | EmptyString => true
  | String c s' => is_ascii_byte c && is_ascii s'
  end.

(** The first byte that is not ASCII, with its position. *)
Fixpoint first_non_ascii (s : string) : option (nat * Ascii.ascii) :=
  match s with
  | EmptyString => None
  | String c s' =>
      if is_ascii_byte c then prod_map S id <$> first_non_ascii s'
      else Some (O, c)
  end.

Definition hex_digit (n : nat) : string :=
  String.substring n 1 "0123456789abcdef".

Definition hex_byte (c : Ascii.ascii) : string :=
  hex_digit (Ascii.nat_of_ascii c / 16)
  +:+ hex_digit (Ascii.nat_of_ascii c mod 16).

Definition UnicodeDecodeError (position : nat) (byte : Ascii.ascii) : exn :=
  Exn "UnicodeDecodeError"
      ("'ascii' codec can't decode byte 0x" +:+ hex_byte byte
       +:+ " in position " +:+ str_Z (Z.of_nat position)
       +:+ ": ordinal not in range(128)").

(** A byte string taken as unicode text. *)
Definition to_unicode (s : string) : exn + string :=
  match first_non_ascii s with
  | None => inr s
  | Some (position, byte) => inl (UnicodeDecodeError position byte)
  end.

(** The items of a join with unicode text, decoded one after the
    other. *)
Fixpoint decode_items (items : list string) : exn + list string :=
  match items with
  | [] => inr []
  | item :: rest =>
      match to_unicode item with
      | inl e => inl e
      | inr text =>
          match decode_items rest with
          | inl e => inl e
          | inr texts => inr (text :: texts)
          end
      end
  end.

(** [sep.join(items)] for a unicode [sep] and byte strings. *)
Definition unicode_join (sep : string) (items : list string) : exn + string :=
  match decode_items items with
  | inl e => inl e
  | inr texts => inr (String.concat sep texts)
  end.

Definition all_ascii (lines : list string) : bool := forallb is_ascii lines.

(** ** The session and its surroundings *)

(** The timeout table [config['timeouts']], in seconds. *)
Record timeout_table := {
  process_startup : Z;
  initial_render_response : Z;
  render_response : Z;
  page_load : Z
}.

(** [self.config], as [render] reads it. *)
Record config := {
  executable : string;
  script : string;
  args : list string;
  env : list (string * string);
  timeouts : timeout_table
}.

(** A child process and a [PipeReader], by identity. *)
Definition proc := nat.
Definition reader := nat.

(** The fields of a [PhantomJSRenderer] that [render] and [shutdown] read
    and assign. *)
Record session := {
  session_config : config;
  _proc : option proc;
  _stderr_reader : option reader
}.

Definition set_proc (p : option proc) (s : session) : session :=
  {| session_config := session_config s; _proc := p;
     _stderr_reader := _stderr_reader s |}.

Definition set_stderr_reader (r : option reader) (s : session) : session :=
  {| session_config := session_config s; _proc := _proc s;
     _stderr_reader := r |}.

(** What [__init__] assigns to the two handles (lines 35-36). *)
Definition new_session (cfg : config) : session :=
  {| session_config := cfg; _proc := None; _stderr_reader := None |}.

(** Modelled from the spec: [TimedMethod.call] of [threadtools], which is
    not among the sources.  The operation runs under a deadline: it
    completes and its result is returned, or its failure is propagated, or
    the deadline passes and the caller gets [None]. *)
Inductive timed (A : Type) :=
| Done (a : A)
| TimedOut
| Failed (e : exn).
Arguments Done {A} a.
Arguments TimedOut {A}.
Arguments Failed {A} e.

(** The outcomes of the external calls of one method call.  [w_which] is
    what [_which] returns, or the exception it raises.  [w_stderr] stands
    for [PipeReader.get]: the lines its thread has queued by the time
    [_check_stderr] empties the queue. *)
Record world := {
  w_which : exn + option string;  (* self._which(config['executable']) *)
  w_popen : timed proc;           (* TimedMethod().call(.., subprocess.Popen, ..) *)
  w_pipe_reader : reader;         (* PipeReader(self._proc.stderr) *)
  w_write : option exn;           (* stdin.write(request_string + '\n') *)
  w_flush : option exn;           (* stdin.flush() *)
  w_readline : timed string;      (* TimedMethod().call(.., stdout.readline) *)
  w_stderr : list string;         (* the lines the drain has queued *)
  w_debug : bool;                 (* self._logger.isEnabledFor(logging.DEBUG) *)
  w_acquire : bool;               (* self._comms_lock.acquire(True, timeout) *)
  w_exit_write : option exn;      (* stdin.write('exit\n') *)
  w_exit_flush : option exn;
  w_wait : timed Z;               (* TimedMethod().call(1, self._proc.wait) *)
  w_poll : option Z               (* self._proc.poll() *)
}.

(** What a method does to its surroundings, in order.  [Popen] and
    [ReadLine] are the two calls under [TimedMethod] whose result matters
    later and carry it; [ShutdownCall] marks the entry of [shutdown]. *)
Inductive event :=
| LogDebug (msg : string)
| LogInfo (msg : string)
| LogError (msg : string)
| Acquire (timeout : option Z) (got : bool)
| Release
| Popen (deadline : Z) (command : list string) (environ : list (string * string))
        (result : timed proc)
| AttachDrain (p : proc) (r : reader)
| Write (p : proc) (data : string)
| Flush (p : proc)
| ReadLine (p : proc) (deadline : Z) (result : timed string)
| Wait (p : proc) (deadline : Z)
| Poll (p : proc)
| Terminate (p : proc)
| Kill (p : proc)
| DrainShutdown (r : reader)
| ShutdownCall (timeout : option Z).

(** ** A monad for method bodies: session fields, trace, exceptions *)

Definition M (A : Type) : Type := session → session * list event * (exn + A).

Definition ret {A} (a : A) : M A := λ s, (s, [], inr a).

Definition bind {A B} (m : M A) (k : A → M B) : M B :=
  λ s, match m s with
       | (s1, t1, inl e) => (s1, t1, inl e)
       | (s1, t1, inr a) =>
           match k a s1 with
           | (s2, t2, r) => (s2, (t1 ++ t2)%list, r)
           end
       end.

Definition raise {A} (e : exn) : M A := λ s, (s, [], inl e).

(** [try: m except Exception as e: h e] *)
Definition catch {A} (m : M A) (h : exn → M A) : M A :=
  λ s, match m s with
       | (s1, t1, inl e) =>
           match h e s1 with
           | (s2, t2, r) => (s2, (t1 ++ t2)%list, r)
           end
       | r => r
       end.

(** [try: m finally: f], for an [f] that does not raise. *)
Definition finally {A} (m : M A) (f : M unit) : M A :=
  λ s, match m s with
       | (s1, t1, r) =>
           match f s1 with
           | (s2, t2, _) => (s2, (t1 ++ t2)%list, r)
           end
       end.

Definition emit (e : event) : M unit := λ s, (s, [e], inr tt).
Definition gets {A} (f : session → A) : M A := λ s, (s, [], inr (f s)).
Definition modify (f : session → session) : M unit := λ s, (f s, [], inr tt).

Definition lift {A} (r : exn + A) : M A :=
  match r with
  | inl e => raise e
  | inr a => ret a
  end.

(** An external call that returns nothing and may raise. *)
Definition may_raise (r : option exn) : M unit :=
  match r with
  | Some e => raise e
  | None => ret tt
  end.

(** The value [TimedMethod().call] hands back. *)
Definition from_timed {A} (r : timed A) : M (option A) :=
  match r with
  | Done a => ret (Some a)
  | TimedOut => ret None
  | Failed e => raise e
  end.

Declare Scope py_scope.
Delimit Scope py_scope with py.
Notation "x <- m ;; k" := (bind m (λ x, k))
  (at level 100, m at next level, right associativity) : py_scope.
Notation "m ;;; k" := (bind m (λ _, k))
  (at level 100, right associativity) : py_scope.
Open Scope py_scope.

(** [self._proc.<attr>]: an attribute of [None] cannot be read. *)
Definition proc_attr (attr : string) : M proc :=
  p <- gets _proc ;;
  match p with
  | Some p => ret p
  | None => raise (AttributeError
      ("'NoneType' object has no attribute '" +:+ attr +:+ "'"))
  end.

Definition reader_attr (attr : string) : M reader :=
  r <- gets _stderr_reader ;;
  match r with
  | Some r => ret r
  | None => raise (AttributeError
      ("'NoneType' object has no attribute '" +:+ attr +:+ "'"))
  end.

Definition nl : string := String (Ascii.ascii_of_nat 10) EmptyString.

(** ** The renderer *)

Inductive html_arg :=
| HtmlText (t : string)       (* a unicode object *)
| HtmlBytes (b : string).     (* a str: bytes to be decoded *)

(** The arguments of [render]. *)
Record render_args := {
  url : string;
  html : option html_arg;
  img_format : string;
  width : Z;
  height : Z;
  page_load_timeout : option Z;
  user_agent : option string;
  headers : option json;
  cookies : option json;
  html_encoding : string
}.

Section Renderer.

(** Library functions the renderer calls, fixed but not computed here. *)
Variable json_dumps : gmap string json → string.
Variable json_loads : string → exn + json.
(** [b.decode(encoding, errors='replace')] *)
Variable decode : string → string → exn + string.
(** [traceback.format_exc()] while [e] is being handled *)
Variable format_exc : exn → string.
(** [msg = {}; msg.update(v); msg['base64'] = ..; json.dumps(msg)] for a
    [v] that is not a dict: it raises for most such values. *)
Variable dump_nondict : json → exn + string.

(** Lines 68-89: the request dict and the page-load timeout in force. *)
Definition build_request (cfg : config) (a : render_args)
  : exn + (gmap string json * Z) :=
  let request : gmap string json :=
    {[ "url" := JStr (url a); "width" := JInt (width a);
       "height" := JInt (height a); "format" := JStr (img_format a) ]} in
  let with_html : exn + gmap string json :=
    match html a with
    | None => inr request
    | Some (HtmlText t) => inr (<["html" := JStr t]> request)
    | Some (HtmlBytes b) =>
        match decode (html_encoding a) b with
        | inl e => inl e
        | inr t => inr (<["html" := JStr t]> request)
        end
    end in
  match with_html with
  | inl e => inl e
  | inr request =>
      let page_load_timeout :=
        match page_load_timeout a with
        | None => page_load (timeouts cfg)
        | Some t => t
        end in
      let request :=
        match user_agent a with
        | Some u => <["userAgent" := JStr u]> request
        | None => request
        end in
      let request :=
        match headers a with
        | Some h => <["headers" := h]> request
        | None => request
        end in
      let request :=
        match cookies a with
        | Some c => <["cookies" := c]> request
        | None => request
        end in
      inr (<["timeout" := JInt (page_load_timeout * 1000)]> request,
           page_load_timeout)
  end.

(** [_construct_command]: [[executable] + args + [script]], where
    [executable] is what [_which] finds now, possibly [None]; what
    [_which] raises is raised. *)
Definition _construct_command (w : world) (cfg : config)
  : exn + list (option string) :=
  match w_which w with
  | inl e => inl e
  | inr executable =>
      inr ([executable] ++ (Some <$> args cfg) ++ [Some (script cfg)])%list
  end.

(** Lines 96-110: start the worker and its drain. *)
Definition start_process (w : world) : M unit :=
  cfg <- gets session_config ;;
  let startup_timeout := process_startup (timeouts cfg) in
  command <- lift (_construct_command w cfg) ;;
  match mapM id command with
  | None =>  (* ' '.join(command) meets None *)
      raise (TypeError "sequence item 0: expected string, NoneType found")
  | Some cmd =>
      emit (LogDebug ("Starting the PhantomJS process: "
                      +:+ String.concat " " cmd)) ;;;
      emit (Popen startup_timeout cmd (env cfg) (w_popen w)) ;;;
      p <- from_timed (w_popen w) ;;
      modify (set_proc p) ;;;
      p <- proc_attr "stderr" ;;
      let r := w_pipe_reader w in
      emit (AttachDrain p r) ;;;
      modify (set_stderr_reader (Some r))
  end.

(** [_check_stderr]: everything the drain has queued, joined, or [None].
    The join of line 244 is one with unicode text. *)
Definition _check_stderr (w : world) : M (option string) :=
  _ <- reader_attr "get" ;;
  match w_stderr w with
  | [] => ret None
  | err_messages =>
      joined <- lift (unicode_join nl err_messages) ;;
      ret (Some joined)
  end.

(** Lines 227-231: detach the drain and shut it down. *)
Definition drain_cleanup : M unit :=
  stderr_reader <- gets _stderr_reader ;;
  modify (set_stderr_reader None) ;;;
  match stderr_reader with
  | Some r => emit (DrainShutdown r)
  | None => ret tt
  end.

(** Lines 197-201, the body of the inner [try] of [shutdown]. *)
Definition say_exit (w : world) (p : proc) : M unit :=
  emit (Write p ("exit" +:+ nl)) ;;;
  may_raise (w_exit_write w) ;;;
  emit (Flush p) ;;;
  may_raise (w_exit_flush w) ;;;
  emit (Wait p 1) ;;;
  _ <- from_timed (w_wait w) ;;
  ret tt.

(** Lines 205-212, its [finally]. *)
Definition reap (w : world) (p : proc) : M unit :=
  emit (Poll p) ;;;
  (match w_poll w with
   | None => emit (Terminate p)
   | Some code => emit (LogInfo ("PhantomJS exit code " +:+ str_Z code))
   end) ;;;
  modify (set_proc None).

(** [shutdown], lines 183-231.  [holds_lock] says that the caller is
    [render], which holds the guard.

    Modelled from the spec: [TimedRLock] of [threadtools], which is not
    among the sources, is re-entrant, so the thread that holds it acquires
    it again at once; otherwise the outcome of [acquire] comes from the
    world. *)
Definition shutdown_from (holds_lock : bool) (w : world) (timeout : option Z)
  : M unit :=
  let got := holds_lock || w_acquire w in
  emit (ShutdownCall timeout) ;;;
  emit (Acquire timeout got) ;;;
  if got then
    proc <- gets _proc ;;
    match proc with
    | None => emit Release                       (* return *)
    | Some p =>
        finally (finally (catch (say_exit w p) (λ _, ret tt)) (reap w p))
                (emit Release) ;;;
        drain_cleanup
    end
  else
    proc <- gets _proc ;;
    modify (set_proc None) ;;;
    (match proc with
     | Some p => emit (Kill p)
     | None => ret tt
     end) ;;;
    drain_cleanup.

(** [shutdown] as code outside [render] calls it. *)
Definition shutdown (w : world) (timeout : option Z) : M unit :=
  shutdown_from false w timeout.

(** The response dict of line 130. *)
Definition new_response (a : render_args) : gmap string json :=
  {[ "url" := JStr (url a); "status" := JNull; "load_time" := JNull;
     "paint_time" := JNull; "base64" := JNull;
     "format" := JStr (img_format a); "error" := JNull ]}.

(** Lines 151-154 and 156-166.  The dict is assigned in place: a step
    that raises leaves what the earlier steps have written. *)
Definition copy_status (v : json) (response : gmap string json)
  : exn + gmap string json :=
  match py_contains "status" v with
  | inl e => inl e
  | inr true =>
      match py_getitem v "status" with
      | inl e => inl e
      | inr x => inr (<["status" := x]> response)
      end
  | inr false => inr (<["status" := JStr "fail"]> response)
  end.

Definition copy_field (src dst : string) (v : json)
  (response : gmap string json) : exn + gmap string json :=
  match py_contains src v with
  | inl e => inl e
  | inr true =>
      match py_getitem v src with
      | inl e => inl e
      | inr x => inr (<[dst := x]> response)
      end
  | inr false => inr response
  end.

Fixpoint run_steps (steps : list (gmap string json → exn + gmap string json))
  (response : gmap string json) : gmap string json * option exn :=
  match steps with
  | [] => (response, None)
  | f :: rest =>
      match f response with
      | inl e => (response, Some e)
      | inr response' => run_steps rest response'
      end
  end.

Definition copy_fields (v : json) (response : gmap string json)
  : gmap string json * option exn :=
  run_steps [copy_status v;
             copy_field "loadTime" "load_time" v;
             copy_field "paintTime" "paint_time" v;
             copy_field "base64" "base64" v;
             copy_field "error" "error" v] response.

(** Lines 146-149, reached when debug logging is on. *)
Definition received_message (v : json) : exn + string :=
  match v with
  | JObj m =>
      inr ("Received response: "
           +:+ json_dumps (<["base64" := JStr "<omitted>"]> m))
  | _ =>
      match dump_nondict v with
      | inl e => inl e
      | inr d => inr ("Received response: " +:+ d)
      end
  end.

(** The body of the inner [try], lines 143-166: the response dict as it
    stands when the block is left, and the exception that ended it, if
    any. *)
Definition fill_response (w : world) (response_string : string)
  (response : gmap string json) : M (gmap string json * option exn) :=
  match json_loads response_string with
  | inl e => ret (response, Some e)
  | inr phantom_response =>
      if w_debug w then
        match received_message phantom_response with
        | inl e => ret (response, Some e)
        | inr msg =>
            emit (LogDebug msg) ;;;
            ret (copy_fields phantom_response response)
        end
      else ret (copy_fields phantom_response response)
  end.

(** The body of the outer [try], lines 93-176. *)
Definition exchange (w : world) (a : render_args)
  (request : gmap string json) (page_load_timeout : Z)
  : M (gmap string json) :=
  proc <- gets _proc ;;
  first_render <-
    (match proc with
     | None => start_process w ;;; ret true
     | Some _ => ret false
     end) ;;
  let request_string := json_dumps request in
  emit (LogDebug ("Sending request: " +:+ request_string)) ;;;
  p <- proc_attr "stdin" ;;
  emit (Write p (request_string +:+ nl)) ;;;
  may_raise (w_write w) ;;;
  p <- proc_attr "stdin" ;;
  emit (Flush p) ;;;
  may_raise (w_flush w) ;;;
  cfg <- gets session_config ;;
  let render_timeout :=
    if first_render : bool then initial_render_response (timeouts cfg)
    else render_response (timeouts cfg) in
  p <- proc_attr "stdout" ;;
  emit (ReadLine p (page_load_timeout + render_timeout) (w_readline w)) ;;;
  response_string <- from_timed (w_readline w) ;;
  err_messages <- _check_stderr w ;;
  (match err_messages with
   | Some m => if w_debug w then emit (LogDebug m) else ret tt
   | None => ret tt
   end) ;;;
  let response := new_response a in
  match response_string with
  | None =>
      ret (<["error" := JStr "Render request has timed out."]>
             (<["status" := JStr "fail"]> response))
  | Some response_string =>
      filled <- fill_response w response_string response ;;
      match filled with
      | (response, None) => ret response
      | (response, Some e) =>
          (* line 169: the message is formatted whatever the log level *)
          text <- lift (to_unicode response_string) ;;
          emit (LogDebug ("Error parsing response: " +:+ text
                          +:+ nl +:+ "Terminating PhantomJS." +:+ nl
                          +:+ format_exc e)) ;;;
          shutdown_from true w None ;;;
          (* line 174: the raw line joins unicode text *)
          text <- lift (to_unicode response_string) ;;
          ret (<["error" := JStr (str_exn e +:+ nl
                                   +:+ "PhantomJS response: " +:+ text)]>
                 (<["status" := JStr "fail"]> response))
      end
  end.

(** [render], lines 51-181. *)
Definition render (w : world) (a : render_args) : M (gmap string json) :=
  cfg <- gets session_config ;;
  built <- lift (build_request cfg a) ;;
  let request := built.1 in
  let page_load_timeout := built.2 in
  emit (Acquire None true) ;;;
  finally
    (catch (exchange w a request page_load_timeout)
           (λ e,
              emit (LogError ("Unexpected error, terminating PhantomJS."
                              +:+ nl +:+ format_exc e)) ;;;
              shutdown_from true w None ;;;
              raise e))
    (emit Release).

(** A call of a public method, with the outcomes it met. *)
Inductive call :=
| CallRender (w : world) (a : render_args)
| CallShutdown (w : world) (timeout : option Z).

Definition after_call (s : session) (c : call) : session :=
  match c with
  | CallRender w a => (render w a s).1.1
  | CallShutdown w timeout => (shutdown w timeout s).1.1
  end.

(** The session after construction and a sequence of calls. *)
Definition after_calls (cfg : config) (cs : list call) : session :=
  foldl after_call (new_session cfg) cs.

End Renderer.

Close Scope py_scope.


(** ** Sessions between calls *)

(** A drain is attached exactly while a process is. *)
Definition session_ok (s : session) : Prop :=
  _proc s = None ↔ _stderr_reader s = None.

Definition cleared (s : session) : session :=
  set_stderr_reader None (set_proc None s).

(** ** Reading traces *)

Definition is_popen (e : event) : bool :=
  match e with Popen _ _ _ _ => true | _ => false end.

(** The data of the first write in a trace. *)
Fixpoint first_write (t : list event) : option string :=
  match t with
  | [] => None
  | Write _ data :: _ => Some data
  | _ :: t' => first_write t'
  end.

(** Every write goes to a process that this trace has spawned and given a
    drain: [spawned] and [drained] are the process spawned so far and the
    process whose diagnostic stream has a drain so far. *)
Fixpoint writes_after_start (spawned drained : option proc) (t : list event)
  : bool :=
  match t with
  | [] => true
  | Popen _ _ _ (Done p) :: t' => writes_after_start (Some p) drained t'
  | AttachDrain p _ :: t' => writes_after_start spawned (Some p) t'
  | Write q _ :: t' =>
      bool_decide (spawned = Some q) && bool_decide (drained = Some q)
      && writes_after_start spawned drained t'
  | _ :: t' => writes_after_start spawned drained t'
  end.

(** The keys of the dict [render] returns. *)
Definition response_keys : gset string :=
  {[ "url"; "status"; "load_time"; "paint_time"; "base64"; "format"; "error" ]}.

Definition response_shape (a : render_args) (r : gmap string json) : Prop :=
  dom r = response_keys
  ∧ r !! "url" = Some (JStr (url a))
  ∧ r !! "format" = Some (JStr (img_format a)).

(** The page-load timeout in force: the argument, or the configured one. *)
Definition effective_page_load (cfg : config) (a : render_args) : Z :=
  default (page_load (timeouts cfg)) (page_load_timeout a).

(** The field [k] of a worker response, when the response is an object
    that has it. *)
Definition sent_field (v : json) (k : string) : option json :=
  match v with
  | JObj m => m !! k
  | _ => None
  end.

(** What a teardown may do to the process [o] that the session holds. *)
Definition teardown_of (o : option proc) (e : event) : bool :=
  match e with
  | Write q _ | Flush q | Wait q _ | Poll q | Terminate q | Kill q =>
      bool_decide (o = Some q)
  | Popen _ _ _ _ | AttachDrain _ _ | ReadLine _ _ _
  | LogDebug _ | LogError _ => false
  | _ => true
  end.

(** An event of a call that works with the process [p] it found. *)
Definition uses_only (p : proc) (e : event) : bool :=
  match e with
  | Popen _ _ _ _ | AttachDrain _ _ => false
  | Write q _ | Flush q | ReadLine q _ _ | Wait q _ | Poll q
  | Terminate q | Kill q => bool_decide (q = p)
  | _ => true
  end.

(** An event that touches neither the process nor the drain. *)
Definition is_quiet (e : event) : bool :=
  match e with
  | ShutdownCall _ | Acquire _ _ | Release => true
  | _ => false
  end.

(** ** The constructor's configuration: objects, references, copies *)

Module Config.

Local Open Scope list_scope.

(** A Python value: an immutable scalar, or a reference to a container
    in the heap. *)
Inductive value :=
| VNone
| VInt (n : Z)
| VStr (s : string)
| VRef (l : nat).

(** A container.  A dict keeps its items in insertion order, one item
    per key. *)
Inductive object :=
| ODict (items : list (string * value))
| OList (elems : list value).

(** Objects by address; a new object takes the next address. *)
Abbreviation heap := (list object).

Fixpoint dict_get {A} (k : string) (d : list (string * A)) : option A :=
  match d with
  | [] => None
  | (k', v) :: d' => if bool_decide (k' = k) then Some v else dict_get k d'
  end.

(** [d[k] = v] *)
Fixpoint dict_set (k : string) (v : value) (d : list (string * value))
  : list (string * value) :=
  match d with
  | [] => [(k, v)]
  | (k', v') :: d' =>
      if bool_decide (k' = k) then (k, v) :: d'
      else (k', v') :: dict_set k v d'
  end.

(** What a value looks like from outside: the containers it reaches,
    read through. *)
Inductive tree :=
| TNone
| TInt (n : Z)
| TStr (s : string)
| TList (elems : list tree)
| TDict (items : list (string * tree)).

Fixpoint snapshot (fuel : nat) (h : heap) (v : value) : option tree :=
  match v with
  | VNone => Some TNone
  | VInt n => Some (TInt n)
  | VStr s => Some (TStr s)
  | VRef l =>
      match fuel with
      | O => None
      | S n =>
          match h !! l with
          | Some (ODict items) =>
              TDict <$> mapM (λ kv, pair kv.1 <$> snapshot n h kv.2) items
          | Some (OList elems) => TList <$> mapM (snapshot n h) elems
          | None => None
          end
      end
  end.

(** Copy a sequence of values one after the other, each copy allocating
    in the heap the previous one left. *)
Fixpoint copy_all (copy : heap → value → option (heap * value))
  (h : heap) (vs : list value) : option (heap * list value) :=
  match vs with
  | [] => Some (h, [])
  | v :: vs' =>
      match copy h v with
      | None => None
      | Some (h1, v') =>
          match copy_all copy h1 vs' with
          | None => None
          | Some (h2, vs'') => Some (h2, v' :: vs'')
          end
      end
  end.

(** [copy.deepcopy(v)]: scalars are themselves, a container is rebuilt
    from copies of what it holds.  Sharing inside [v] is not kept (the
    library keeps it with a memo); what is read through the copy is the
    same. *)
Fixpoint deepcopy (fuel : nat) (h : heap) (v : value) : option (heap * value) :=
  match v with
  | VRef l =>
      match fuel with
      | O => None
      | S n =>
          match h !! l with
          | Some (ODict items) =>
              match copy_all (deepcopy n) h items.*2 with
              | None => None
              | Some (h1, vs) =>
                  Some ((h1 ++ [ODict (zip items.*1 vs)])%list,
                        VRef (length h1))
              end
          | Some (OList elems) =>
              match copy_all (deepcopy n) h elems with
              | None => None
              | Some (h1, vs) =>
                  Some ((h1 ++ [OList vs])%list, VRef (length h1))
              end
          | None => None
          end
      end
  | _ => Some (h, v)
  end.

(** [dst.update(src)] for two dicts: every item of [src] is assigned
    into [dst]; the values are not copied. *)
Definition dict_update (h : heap) (dst : nat) (src : value) : option heap :=
  match src with
  | VRef ls =>
      match h !! ls, h !! dst with
      | Some (ODict new_items), Some (ODict items) =>
          Some (<[dst := ODict (foldr (λ kv d, dict_set kv.1 kv.2 d)
                                      items new_items)]> h)
      | _, _ => None
      end
  | _ => None
  end.

(** Lines 32-33 of [__init__]:
    [self.config = copy.deepcopy(PHANTOMJS); self.config.update(config)].
    [PHANTOMJS], the defaults that [settings] defines, is a parameter: any
    dict in the heap. *)
Definition init_config (fuel : nat) (h : heap) (PHANTOMJS config : value)
  : option (heap * value) :=
  match deepcopy fuel h PHANTOMJS with
  | Some (h1, VRef c) =>
      match dict_update h1 c config with
      | Some h2 => Some (h2, VRef c)
      | None => None
      end
  | _ => None
  end.

(** [self.config[k]], as a reference or scalar. *)
Definition binding (h : heap) (c : value) (k : string) : option value :=
  match c with
  | VRef l =>
      match h !! l with
      | Some (ODict items) => dict_get k items
      | _ => None
      end
  | _ => None
  end.

(** [self.config[k]], read through: what the session uses. *)
Definition setting (fuel : nat) (h : heap) (c : value) (k : string)
  : option tree :=
  match binding h c k with
  | Some v => snapshot fuel h v
  | None => None
  end.

(** Code outside the session has changed objects that existed before the
    constructor ran, in any way; the objects the constructor created are
    as it left them. *)
Definition older_changed (h0 h1 h2 : heap) : Prop :=
  ∀ l, (length h0 ≤ l)%nat → (l < length h1)%nat → h2 !! l = h1 !! l.


(** The claim of isolation as the specification words it: nothing done
    later to objects that existed before construction changes a setting
    of the session. *)
Definition isolated_from_older_objects : Prop :=
  ∀ fuel h PHANTOMJS config h1 c,
    init_config fuel h PHANTOMJS config = Some (h1, c) →
    ∀ h2, older_changed h h1 h2 →
    ∀ k, setting fuel h2 c k = setting fuel h1 c k.

(** One heap holds everything another does. *)
Definition included (h h' : heap) : Prop :=
  ∀ l o, h !! l = Some o → h' !! l = Some o.

(** What [deepcopy] with fuel [n] does to a value that reads as [t]. *)
Definition copies_well (n : nat) : Prop :=
  ∀ h v t, snapshot n h v = Some t →
    ∃ h' v', deepcopy n h v = Some (h', v')
      ∧ (∃ new, h' = h ++ new)
      ∧ ∀ h2, older_changed h h' h2 → snapshot n h2 v' = Some t.

(** *** A caller that keeps a reference *)

(** Address 0: the default timeout table; 1: the defaults; 2: the timeout
    table the caller passes; 3: the caller's mapping. *)
Definition example_heap : heap :=
  [ ODict [("page_load", VInt 5)];
    ODict [("executable", VStr "phantomjs"); ("timeouts", VRef 0)];
    ODict [("page_load", VInt 10)];
    ODict [("timeouts", VRef 2)] ].

(** The heap when the constructor returns: 4 is the copy of the default
    timeout table, 5 is [self.config]. *)
Definition example_heap_built : heap :=
  example_heap ++
  [ ODict [("page_load", VInt 5)];
    ODict [("executable", VStr "phantomjs"); ("timeouts", VRef 2)] ].

(** The caller, later: [timeouts['page_load'] = 99]. *)
Definition example_heap_later : heap :=
  <[2%nat := ODict [("page_load", VInt 99)]]> example_heap_built.

End Config.

(** ** Sample surroundings

    Stand-ins for the library functions, and a configuration, arguments and
    worlds to run the renderer on. *)

Definition quote : string := String (Ascii.ascii_of_nat 34) EmptyString.

Definition ValueError (m : string) : exn := Exn "ValueError" m.
Definition LookupError (m : string) : exn := Exn "LookupError" m.

Definition sample_show (v : json) : string :=
  match v with
  | JNull => "null"
  | JBool true => "true"
  | JBool false => "false"
  | JInt n => str_Z n
  | JFloat _ => "0.0"
  | JStr s => quote +:+ s +:+ quote
  | JArr _ => "[]"
  | JObj _ => "{}"
  end.

Definition sample_dumps (m : gmap string json) : string :=
  "{" +:+ String.concat ", "
            (map (λ kv : string * json,
                    quote +:+ kv.1 +:+ quote +:+ ": " +:+ sample_show kv.2)
                 (map_to_list m))
  +:+ "}".

(** Three lines a worker may print: a JSON object, a JSON number, and
    something that is not JSON. *)
Definition line_ok : string :=
  "{" +:+ quote +:+ "status" +:+ quote +:+ ": " +:+ quote +:+ "ok" +:+ quote
  +:+ ", " +:+ quote +:+ "base64" +:+ quote +:+ ": " +:+ quote +:+ "aGk="
  +:+ quote +:+ "}" +:+ nl.

Definition line_number : string := "42" +:+ nl.


Definition sample_loads (line : string) : exn + json :=
  if bool_decide (line = line_ok)
  then inr (JObj {[ "status" := JStr "ok"; "base64" := JStr "aGk=" ]})
  else if bool_decide (line = line_number) then inr (JInt 42)
  else inl (ValueError "No JSON object could be decoded").

Definition sample_decode (encoding b : string) : exn + string :=
  if bool_decide (encoding = "utf-8") then inr b
  else inl (LookupError ("unknown encoding: " +:+ encoding)).

Definition sample_format_exc (e : exn) : string :=
  "Traceback (most recent call last):" +:+ nl
  +:+ exn_class e +:+ ": " +:+ exn_msg e +:+ nl.

Definition sample_dump_nondict (v : json) : exn + string :=
  inl (TypeError "object is not iterable").

Definition sample_render : world → render_args → M (gmap string json) :=
  render sample_dumps sample_loads sample_decode sample_format_exc
    sample_dump_nondict.

Definition sample_config : config :=
  {| executable := "phantomjs"; script := "render.js";
     args := ["--ssl-protocol=any"]; env := [("LANG", "C")];
     timeouts := {| process_startup := 20; initial_render_response := 10;
                    render_response := 3; page_load := 7 |} |}.

Definition sample_args : render_args :=
  {| url := "http://example.org/"; html := None; img_format := "PNG";
     width := 1280; height := 1024; page_load_timeout := None;
     user_agent := None; headers := None; cookies := None;
     html_encoding := "utf-8" |}.

(** The same request with markup given as bytes in an encoding Python
    does not know. *)
Definition sample_args_bytes : render_args :=
  {| url := "http://example.org/"; html := Some (HtmlBytes "<p>hi</p>");
     img_format := "PNG"; width := 1280; height := 1024;
     page_load_timeout := None; user_agent := None; headers := None;
     cookies := None; html_encoding := "utf-42" |}.

(** A world in which every call succeeds, the worker is process 1, its
    drain is reader 2, and the bounded read ends as [r]. *)
Definition sample_world (r : timed string) : world :=
  {| w_which := inr (Some "/usr/bin/phantomjs"); w_popen := Done 1%nat;
     w_pipe_reader := 2%nat; w_write := None; w_flush := None;
     w_readline := r; w_stderr := []; w_debug := false; w_acquire := true;
     w_exit_write := None; w_exit_flush := None; w_wait := Done 0;
     w_poll := Some 0 |}.


(** A session that holds process 1 and its drain 2. *)
Definition sample_running : session :=
  {| session_config := sample_config; _proc := Some 1%nat;
     _stderr_reader := Some 2%nat |}.

(** The response, when there is one. *)
Definition response_of (r : exn + gmap string json) : gmap string json :=
  match r with
  | inr response => response
  | inl _ => ∅
  end.


(** Sample runs: a first render whose read times out, one that reads a
    JSON object, one that reads a JSON number; a later render that reads
    garbage, and one whose write meets a broken pipe. *)
Definition timeout_run :=
  sample_render (sample_world TimedOut) sample_args (new_session sample_config).

Definition ok_run :=
  sample_render (sample_world (Done line_ok)) sample_args
    (new_session sample_config).

Definition number_run :=
  sample_render (sample_world (Done line_number)) sample_args
    (new_session sample_config).



(** The line the first write of [ok_run] carries. *)
Definition sent_line : string := default EmptyString (first_write ok_run.1.2).

(** [shutdown] after one successful render. *)
Definition after_shutdown :=
  shutdown (sample_world TimedOut) None
    (after_calls sample_dumps sample_loads sample_decode sample_format_exc
       sample_dump_nondict sample_config
       [CallRender (sample_world (Done line_ok)) sample_args]).

(** ** Two claims as the specification words them *)

Section Stated.
Variable json_dumps : gmap string json → string.
Variable json_loads : string → exn + json.
Variable decode : string → string → exn + string.
Variable format_exc : exn → string.
Variable dump_nondict : json → exn + string.

(** Every line that [json.loads] accepts has its five fields copied, each
    absent one defaulted. *)
Definition copies_fields_of_every_parseable_line : Prop :=
  ∀ w a s s' t out p d line v,
    session_ok s →
    render json_dumps json_loads decode format_exc dump_nondict w a s
      = (s', t, out) →
    ReadLine p d (Done line) ∈ t →
    json_loads line = inr v →
    ∃ response, out = inr response
      ∧ response !! "status"
        = Some (default (JStr "fail") (sent_field v "status"))
      ∧ response !! "load_time" = Some (default JNull (sent_field v "loadTime"))
      ∧ response !! "paint_time"
        = Some (default JNull (sent_field v "paintTime"))
      ∧ response !! "base64" = Some (default JNull (sent_field v "base64"))
      ∧ response !! "error" = Some (default JNull (sent_field v "error")).


End Stated.

(** ** The host: files, the search path, the calling thread *)

(** What the constructor and [_which] ask the operating system. *)
Record host := {
  isfile : string → bool;            (* os.path.isfile *)
  access_X_OK : string → bool;       (* os.access(.., os.X_OK) *)
  environ_PATH : option string;      (* os.environ['PATH'], when it is set *)
  on_main_thread : bool              (* current_thread() is a _MainThread *)
}.

(** *** Text and POSIX paths

    The methods of [str] and the functions of [os.path] that [_which]
    calls, for a POSIX host: the separator of paths is a slash, that of
    the search path a colon. *)

Definition slash : Ascii.ascii := Ascii.ascii_of_nat 47.
Definition colon : Ascii.ascii := Ascii.ascii_of_nat 58.
Definition dquote : Ascii.ascii := Ascii.ascii_of_nat 34.

(** [c in s] for a character. *)
Fixpoint has_char (c : Ascii.ascii) (s : string) : bool :=
  match s with
  | EmptyString => false
  | String x s' => bool_decide (x = c) || has_char c s'
  end.

(** [s == c * len(s)] *)
Fixpoint all_char (c : Ascii.ascii) (s : string) : bool :=
  match s with
  | EmptyString => true
  | String x s' => bool_decide (x = c) && all_char c s'
  end.

(** [s.find(c)]-like position from the right: [s.rfind(c) + 1], which is
    0 when [c] is not in [s]. *)
Fixpoint rfind_succ (c : Ascii.ascii) (s : string) : nat :=
  match s with
  | EmptyString => O
  | String x s' =>
      match rfind_succ c s' with
      | O => if bool_decide (x = c) then 1%nat else O
      | S i => S (S i)
      end
  end.

(** [s[:i]] and [s[i:]] *)
Fixpoint str_take (i : nat) (s : string) : string :=
  match i, s with
  | S i', String x s' => String x (str_take i' s')
  | _, _ => EmptyString
  end.

Fixpoint str_drop (i : nat) (s : string) : string :=
  match i, s with
  | S i', String _ s' => str_drop i' s'
  | _, _ => s
  end.

(** [s.lstrip(c)], [s.rstrip(c)] and [s.strip(c)] for one character. *)
Fixpoint str_lstrip (c : Ascii.ascii) (s : string) : string :=
  match s with
  | EmptyString => EmptyString
  | String x s' => if bool_decide (x = c) then str_lstrip c s' else s
  end.

Fixpoint str_rstrip (c : Ascii.ascii) (s : string) : string :=
  match s with
  | EmptyString => EmptyString
  | String x s' =>
      match str_rstrip c s' with
      | EmptyString =>
          if bool_decide (x = c) then EmptyString else String x EmptyString
      | r => String x r
      end
  end.

Definition str_strip (c : Ascii.ascii) (s : string) : string :=
  str_rstrip c (str_lstrip c s).

(** [s.split(sep)] for a one-character separator: one piece more than
    there are separators, so never an empty list. *)
Fixpoint str_split (sep : Ascii.ascii) (s : string) : list string :=
  match s with
  | EmptyString => [EmptyString]
  | String x s' =>
      if bool_decide (x = sep) then EmptyString :: str_split sep s'
      else match str_split sep s' with
           | [] => [String x EmptyString]
           | piece :: pieces => String x piece :: pieces
           end
  end.

Definition startswith (c : Ascii.ascii) (s : string) : bool :=
  match s with
  | String x _ => bool_decide (x = c)
  | EmptyString => false
  end.

Fixpoint endswith (c : Ascii.ascii) (s : string) : bool :=
  match s with
  | EmptyString => false
  | String x EmptyString => bool_decide (x = c)
  | String _ s' => endswith c s'
  end.

(** [os.path.split(p)]: the path is cut after its last slash; the slashes
    that end the head are dropped, unless the head is made of slashes. *)
Definition os_path_split (p : string) : string * string :=
  let i := rfind_succ slash p in
  let head := str_take i p in
  let tail := str_drop i p in
  let head :=
    if bool_decide (head ≠ EmptyString) && negb (all_char slash head)
    then str_rstrip slash head else head in
  (head, tail).

(** [os.path.join(a, b)] *)
Definition os_path_join (a b : string) : string :=
  if startswith slash b then b
  else if bool_decide (a = EmptyString) || endswith slash a then a +:+ b
  else a +:+ String slash b.

(** *** [_which] *)

(** [is_exe], the function local to [_which]. *)
Definition is_exe (h : host) (fpath : string) : bool :=
  isfile h fpath && access_X_OK h fpath.

(** The loop of lines 272-276 over the entries of the search path. *)
Fixpoint search_path (h : host) (program : string) (paths : list string)
  : option string :=
  match paths with
  | [] => None
  | path :: paths' =>
      let path := str_strip dquote path in
      let exe_file := os_path_join path program in
      if is_exe h exe_file then Some exe_file
      else search_path h program paths'
  end.

(** [_which], lines 261-278.  Reading [os.environ] at a name that is not
    set raises [KeyError]. *)
Definition _which (h : host) (program : string) : exn + option string :=
  let fpath := (os_path_split program).1 in
  if bool_decide (fpath ≠ EmptyString) then
    inr (if is_exe h program then Some program else None)
  else
    match environ_PATH h with
    | None => inl (KeyError "'PATH'")
    | Some path => inr (search_path h program (str_split colon path))
    end.

(** *** The constructor *)

(** Modelled from the spec: [renderer.RenderError], of a module that is
    not among the sources, is the exception a session raises when a
    prerequisite is missing at construction; it is kept by its name and
    its message. *)
Definition RenderError (m : string) : exn := Exn "RenderError" m.

Inductive signum := SIGABRT | SIGINT | SIGTERM.

(** [not x] for what [_which] returns: [None] and the empty string are
    false. *)
Definition py_not (x : option string) : bool :=
  match x with
  | None => true
  | Some s => bool_decide (s = EmptyString)
  end.

(** [__init__], lines 35-49, on the configuration that lines 32-33 have
    merged: the session, and the signals whose handler is now
    [_on_signal]. *)
Definition __init__ (h : host) (cfg : config)
  : exn + (session * list signum) :=
  match _which h (executable cfg) with
  | inl e => inl e
  | inr found =>
      if py_not found then
        inl (RenderError ("Can't locate PhantomJS executable: "
                          +:+ executable cfg))
      else if negb (isfile h (script cfg)) then
        inl (RenderError ("Can't locate script: " +:+ script cfg))
      else
        inr (new_session cfg,
             if on_main_thread h then [SIGABRT; SIGINT; SIGTERM] else [])
  end.

(** The surroundings of a call are those of the host [h]: the executable
    is located now as [_which] locates it on [h]. *)
Definition world_on (h : host) (cfg : config) (w : world) : Prop :=
  _which h (executable cfg) = w_which w.

(** *** The signal handler *)

Open Scope py_scope.

(** [_on_signal], lines 248-251.  [os._exit] does not return: the value
    is the status the host process ends with. *)
Definition _on_signal (w : world) : M Z :=
  shutdown w (Some 0) ;;;
  ret 0.

Close Scope py_scope.

(** ** The drain: [PipeReader] *)

Module PipeReader.

(** A reader: the pipe it reads, the queue it fills, its thread.  The
    pipe is what successive [readline] calls will return; past its end,
    [readline] returns the empty string. *)
Record state := {
  pipe : list string;
  pipe_closed : bool;
  queue : list string;
  thread_alive : bool
}.

(** [PipeReader(pipe)]: an empty queue, and the thread started. *)
Definition __init__ (pipe : list string) : state :=
  {| pipe := pipe; pipe_closed := false; queue := []; thread_alive := true |}.

Definition readline (p : list string) : string * list string :=
  match p with
  | [] => (EmptyString, [])
  | line :: rest => (line, rest)
  end.

(** One turn of the loop of [_enqueue_output], lines 294-296: a line is
    read and put in the queue; at the sentinel, the empty string, the loop
    ends, the pipe is closed and the thread is over. *)
Definition turn (st : state) : state :=
  if thread_alive st then
    let (line, rest) := readline (pipe st) in
    if bool_decide (line = EmptyString) then
      {| pipe := rest; pipe_closed := true; queue := queue st;
         thread_alive := false |}
    else
      {| pipe := rest; pipe_closed := pipe_closed st;
         queue := (queue st ++ [line])%list; thread_alive := true |}
  else st.

(** [_enqueue_output] run for at most [n] turns. *)
Fixpoint _enqueue_output (n : nat) (st : state) : state :=
  match n with
  | O => st
  | S n' => if thread_alive st then _enqueue_output n' (turn st) else st
  end.

(** [get], lines 298-303: the head of the queue, or [None] when
    [get_nowait] raises [Empty]. *)
Definition get (st : state) : option string * state :=
  match queue st with
  | [] => (None, st)
  | line :: rest =>
      (Some line,
       {| pipe := pipe st; pipe_closed := pipe_closed st; queue := rest;
          thread_alive := thread_alive st |})
  end.

(** The thread and the session run side by side: a schedule says whose
    turn it is. *)
Inductive action := Turn | Get.

(** What the [get] calls of a schedule return, in order. *)
Fixpoint run (schedule : list action) (st : state)
  : list (option string) * state :=
  match schedule with
  | [] => ([], st)
  | Turn :: schedule' => run schedule' (turn st)
  | Get :: schedule' =>
      let (r, st1) := get st in
      let (rs, st2) := run schedule' st1 in
      (r :: rs, st2)
  end.

(** The lines [iter(pipe.readline, b'')] yields: those before the first
    empty one. *)
Fixpoint lines_of (p : list string) : list string :=
  match p with
  | [] => []
  | line :: rest =>
      if bool_decide (line = EmptyString) then [] else line :: lines_of rest
  end.

(** The lines the thread has still to queue. *)
Definition to_come (st : state) : list string :=
  if thread_alive st then lines_of (pipe st) else [].

End PipeReader.

(** The loop of [_check_stderr], lines 236-241, on a reader: [None] when
    [n] calls of [get] do not empty the queue. *)
Fixpoint collect (n : nat) (st : PipeReader.state)
  (err_messages : list string) : option (list string * PipeReader.state) :=
  match n with
  | O => None
  | S n' =>
      match PipeReader.get st with
      | (None, st1) => Some (err_messages, st1)
      | (Some err, st1) => collect n' st1 (err_messages ++ [err])%list
      end
  end.

(** [_check_stderr], lines 233-246, with the reader in hand: what it
    returns or raises, and the reader it leaves. *)
Definition _check_stderr_on (n : nat) (st : PipeReader.state)
  : option ((exn + option string) * PipeReader.state) :=
  match collect n st [] with
  | None => None
  | Some (err_messages, st1) =>
      Some (match err_messages with
            | [] => inr None
            | _ =>
                match unicode_join nl err_messages with
                | inl e => inl e
                | inr joined => inr (Some joined)
                end
            end, st1)
  end.

(** ** More ways to read a trace *)

(** The guard is held [depth] times; the trace uses the pipes of the
    worker, polls it and terminates it only while the guard is held, and
    releases only a guard that is held.  The result is the depth at the
    end. *)
Fixpoint guarded (depth : nat) (t : list event) : option nat :=
  match t with
  | [] => Some depth
  | Acquire _ true :: t' => guarded (S depth) t'
  | Release :: t' =>
      match depth with
      | O => None
      | S d => guarded d t'
      end
  | Popen _ _ _ _ :: t' | AttachDrain _ _ :: t' | Write _ _ :: t'
  | Flush _ :: t' | ReadLine _ _ _ :: t' | Wait _ _ :: t' | Poll _ :: t'
  | Terminate _ :: t' =>
      match depth with
      | O => None
      | S _ => guarded depth t'
      end
  | _ :: t' => guarded depth t'
  end.

Definition is_readline (e : event) : bool :=
  match e with ReadLine _ _ _ => true | _ => false end.

(** A trace without what it logs at the debug level. *)
Fixpoint without_debug (t : list event) : list event :=
  match t with
  | [] => []
  | LogDebug _ :: t' => without_debug t'
  | e :: t' => e :: without_debug t'
  end.

(** What a [shutdown] that did not get the guard may do. *)
Definition is_forced (e : event) : bool :=
  match e with
  | ShutdownCall _ | Acquire _ false | Kill _ | DrainShutdown _ => true
  | _ => false
  end.

(** The keys a request may have. *)
Definition request_keys : gset string :=
  {[ "url"; "width"; "height"; "format"; "html"; "userAgent"; "headers";
     "cookies"; "timeout" ]}.

(** A world that differs in what the drain has queued only. *)
Definition with_stderr (lines : list string) (w : world) : world :=
  {| w_which := w_which w; w_popen := w_popen w;
     w_pipe_reader := w_pipe_reader w; w_write := w_write w;
     w_flush := w_flush w; w_readline := w_readline w; w_stderr := lines;
     w_debug := w_debug w; w_acquire := w_acquire w;
     w_exit_write := w_exit_write w; w_exit_flush := w_exit_flush w;
     w_wait := w_wait w; w_poll := w_poll w |}.




(** ** More sample surroundings *)

(** A host with the executable in /usr/bin and the script in the working
    directory; the search path has two entries, the second between double
    quotes. *)
Definition sample_host : host :=
  {| isfile := λ p, bool_decide (p = "/usr/bin/phantomjs")
                    || bool_decide (p = "render.js");
     access_X_OK := λ p, bool_decide (p = "/usr/bin/phantomjs");
     environ_PATH := Some ("/bin:" +:+ quote +:+ "/usr/bin" +:+ quote);
     on_main_thread := true |}.





(** Two lines on the diagnostic stream, and a reader that has queued
    them. *)
Definition sample_pipe : list string := ["warning" +:+ nl; "error" +:+ nl].

Definition sample_reader : PipeReader.state :=
  PipeReader._enqueue_output 3 (PipeReader.__init__ sample_pipe).

(** Two lines with bytes that are not ASCII, as the worker may print
    them: a check mark (e2 9c 93) before " ok", on the diagnostic stream,
    and "caf" with an e acute (c3 a9), which is not JSON, as a response. *)
Definition line_check_mark : string :=
  String (Ascii.ascii_of_nat 226) (String (Ascii.ascii_of_nat 156)
    (String (Ascii.ascii_of_nat 147) (" ok" +:+ nl))).

Definition line_accent : string :=
  "caf" +:+ String (Ascii.ascii_of_nat 195)
              (String (Ascii.ascii_of_nat 169) nl).

(** A render on the running session whose read times out while the check
    mark line is queued, and one that reads the accented line. *)
Definition check_mark_run :=
  sample_render (with_stderr [line_check_mark] (sample_world TimedOut))
    sample_args sample_running.

Definition accent_run :=
  sample_render (sample_world (Done line_accent)) sample_args sample_running.

(** * Properties *)

Example contains_obj :
  py_contains "status" (JObj {["status" := JStr "ok"]}) = inr true.
Proof. reflexivity. Qed.

Example contains_int : py_contains "status" (JInt 42)
  = inl (TypeError "argument of type 'int' is not iterable").
Proof. reflexivity. Qed.

Example contains_sub : py_contains "status" (JStr "no status here") = inr true.
Proof. reflexivity. Qed.

Example str_Z_ex : str_Z 137 = "137" ∧ str_Z (-9) = "-9" ∧ str_Z 0 = "0".
Proof. repeat split; reflexivity. Qed.

(** The first render of a session, its read timing out: the worker and its
    drain stay. *)
Example timeout_run_session :
  timeout_run.1.1
  = {| session_config := sample_config; _proc := Some 1%nat;
       _stderr_reader := Some 2%nat |}.
Proof. reflexivity. Qed.

(** A line that is a JSON number ends in the handler of the parsing step. *)
Example number_run_response :
  response_of number_run.2 !! "status" = Some (JStr "fail")
  ∧ response_of number_run.2 !! "error"
    = Some (JStr ("argument of type 'int' is not iterable" +:+ nl
                  +:+ "PhantomJS response: " +:+ line_number))
  ∧ _proc number_run.1.1 = None.
Proof. vm_compute. repeat split. Qed.

(** Bytes in an unknown encoding: the exception leaves [render] at once. *)
Example bytes_run :
  sample_render (sample_world TimedOut) sample_args_bytes sample_running
  = (sample_running, [], inl (LookupError "unknown encoding: utf-42")).
Proof. reflexivity. Qed.

(** ** Bytes that meet unicode text *)

Lemma first_non_ascii_None s : first_non_ascii s = None ↔ is_ascii s = true.
Proof.
  induction s as [|c s IH]; cbn [first_non_ascii is_ascii]; [done|].
  destruct (is_ascii_byte c); cbn [andb]; [|by split].
  rewrite <- IH. by destruct (first_non_ascii s).
Qed.


Lemma to_unicode_ascii s : is_ascii s = true → to_unicode s = inr s.
Proof.
  intros H%first_non_ascii_None. unfold to_unicode. by rewrite H.
Qed.

Lemma to_unicode_inl s e : to_unicode s = inl e → is_ascii s = false.
Proof.
  intros H. destruct (is_ascii s) eqn:Ha; [|done].
  rewrite to_unicode_ascii in H; done.
Qed.

Lemma decode_items_ascii items :
  all_ascii items = true → decode_items items = inr items.
Proof.
  induction items as [|item items IH]; [done|].
  cbn [all_ascii forallb decode_items]. intros [Hi Hr]%andb_true_iff.
  by rewrite (to_unicode_ascii _ Hi), (IH Hr).
Qed.

Lemma unicode_join_ascii sep items :
  all_ascii items = true →
  unicode_join sep items = inr (String.concat sep items).
Proof. intros H. unfold unicode_join. by rewrite decode_items_ascii. Qed.

Lemma decode_items_inl items e :
  decode_items items = inl e → all_ascii items = false.
Proof.
  intros H. destruct (all_ascii items) eqn:Ha; [|done].
  rewrite decode_items_ascii in H; done.
Qed.

Lemma unicode_join_inl sep items e :
  unicode_join sep items = inl e → all_ascii items = false.
Proof.
  unfold unicode_join. destruct (decode_items items) eqn:H; [|done].
  intros _. by eapply decode_items_inl.
Qed.

(** ** Running a method body by cases

    A body is unfolded and the outcome its next step depends on is split,
    one outcome at a time, until the result is a triple. *)

Ltac unfold_M :=
  unfold may_raise, lift, from_timed, proc_attr, reader_attr in *;
  unfold bind, ret, raise, catch, finally, emit, gets, modify in *.

Ltac simp_in H :=
  cbn [_proc _stderr_reader session_config set_proc set_stderr_reader
       fst snd app orb andb] in H.

Ltac step H :=
  match type of H with
  | context [match ?x with _ => _ end] =>
      lazymatch x with
      | context [match _ with _ => _ end] => fail
      | _ => destruct x eqn:?
      end
  end; simp_in H; simplify_eq.

Ltac run H := repeat step H; simplify_eq.

Ltac unfold_render H :=
  unfold render, exchange, start_process, _check_stderr, fill_response in H;
  unfold_M; simp_in H.

(** ** [shutdown] *)

Lemma shutdown_from_state h w timeout s s' t r :
  shutdown_from h w timeout s = (s', t, r) →
  r = inr tt
  ∧ s' = (if h || w_acquire w
          then match _proc s with None => s | Some _ => cleared s end
          else cleared s).
Proof.
  destruct s as [cfg pr rd].
  unfold shutdown_from, drain_cleanup, say_exit, reap. unfold_M.
  intros H. simp_in H.
  destruct (h || w_acquire w), pr as [p|], rd as [rd|]; simp_in H;
    run H; auto.
Qed.

Lemma shutdown_from_events h w timeout s s' t r :
  shutdown_from h w timeout s = (s', t, r) →
  Forall (λ e, teardown_of (_proc s) e = true) t
  ∧ ∃ t', t = ShutdownCall timeout :: t'.
Proof.
  destruct s as [cfg pr rd].
  unfold shutdown_from, drain_cleanup, say_exit, reap. unfold_M.
  intros H. simp_in H.
  destruct (h || w_acquire w), pr as [p|], rd as [rd|]; simp_in H;
    run H; (split; [|eauto]);
    repeat first
      [ apply Forall_nil_2
      | apply Forall_cons_2;
        [ cbn; try (rewrite bool_decide_eq_true_2 by done); done | ] ].
Qed.

(** What a teardown does, by the path it takes. *)
Lemma shutdown_from_does h w timeout s s' t r :
  shutdown_from h w timeout s = (s', t, r) →
  ShutdownCall timeout ∈ t
  ∧ Acquire timeout (h || w_acquire w) ∈ t
  ∧ (h || w_acquire w = true → ∀ p, _proc s = Some p →
       Write p ("exit" +:+ nl) ∈ t ∧ Poll p ∈ t
       ∧ (w_poll w = None → Terminate p ∈ t)
       ∧ (∀ code, w_poll w = Some code →
            LogInfo ("PhantomJS exit code " +:+ str_Z code) ∈ t)
       ∧ ∀ rd, _stderr_reader s = Some rd → DrainShutdown rd ∈ t)
  ∧ (h || w_acquire w = true → _proc s = None →
       t = [ShutdownCall timeout; Acquire timeout true; Release])
  ∧ (h || w_acquire w = false →
       (∀ p, _proc s = Some p → Kill p ∈ t)
       ∧ (∀ rd, _stderr_reader s = Some rd → DrainShutdown rd ∈ t)
       ∧ ∀ p data, Write p data ∉ t).
Proof.
  destruct s as [cfg pr rd].
  unfold shutdown_from, drain_cleanup, say_exit, reap. unfold_M.
  intros H. simp_in H.
  destruct (h || w_acquire w), pr as [p|], rd as [rd|]; simp_in H; run H;
    cbn [_proc _stderr_reader];
    repeat split; try done; intros; simplify_eq;
    first
      [ match goal with
        | Hc : _ ∈ _ |- False =>
            repeat (apply elem_of_cons in Hc as [Hc|Hc]; [discriminate Hc|]);
            by apply elem_of_nil in Hc
        end
      | solve [repeat first [ apply list_elem_of_here
                            | apply list_elem_of_further ]]
      | repeat (apply not_elem_of_cons; split; [done|]);
        apply not_elem_of_nil ].
Qed.

(** With the guard and no process, [shutdown] returns at line 194: the
    guard is released and no field is assigned. *)
Remark shutdown_without_process w timeout s :
  w_acquire w = true → _proc s = None →
  shutdown w timeout s
  = (s, [ShutdownCall timeout; Acquire timeout true; Release], inr tt).
Proof.
  intros Ha Hp. destruct s as [cfg pr rd]. cbn in Hp. subst pr.
  unfold shutdown, shutdown_from. unfold_M. cbn. by rewrite Ha.
Qed.

Lemma shutdown_from_call h w timeout s s' t r :
  shutdown_from h w timeout s = (s', t, r) → ShutdownCall timeout ∈ t.
Proof. intros H. apply (shutdown_from_does _ _ _ _ _ _ _ H). Qed.

Lemma shutdown_from_live w timeout s s' t r p :
  shutdown_from true w timeout s = (s', t, r) → _proc s = Some p →
  Write p ("exit" +:+ nl) ∈ t ∧ Poll p ∈ t.
Proof.
  intros H Hp.
  destruct (shutdown_from_does _ _ _ _ _ _ _ H) as (_ & _ & Hl & _).
  destruct (Hl eq_refl p Hp) as (? & ? & _). done.
Qed.

Ltac step_render H :=
  match type of H with
  | context [match ?x with _ => _ end] =>
      lazymatch x with
      | context [match _ with _ => _ end] => fail
      | shutdown_from _ _ _ _ =>
          let E := fresh "Hsd" in
          let Es := fresh "Hst" in
          destruct x as [[? ?] ?] eqn:E;
          pose proof (shutdown_from_state _ _ _ _ _ _ _ E) as [-> Es];
          cbn [orb _proc cleared set_proc set_stderr_reader _stderr_reader
               session_config] in Es
      | _ => destruct x eqn:?
      end
  end; simp_in H; simplify_eq.

Ltac run_render H := unfold_render H; repeat step_render H; simplify_eq.

Lemma teardown_of_elem o t e :
  Forall (λ e, teardown_of o e = true) t → e ∈ t → teardown_of o e = true.
Proof. rewrite Forall_forall. auto. Qed.

(** Membership in a trace that ends in a teardown. *)
Ltac trace_in H :=
  repeat first
    [ apply elem_of_nil in H; destruct H
    | apply elem_of_cons in H as [H|H]; [simplify_eq|]
    | apply elem_of_app in H as [H|H]
    | match goal with
      | Hsd : shutdown_from _ _ _ _ = (_, ?l, _) |- _ =>
          match type of H with
          | _ ∈ l =>
              apply (teardown_of_elem _ _ _
                       (proj1 (shutdown_from_events _ _ _ _ _ _ _ Hsd))) in H;
              cbn in H; try discriminate H
          end
      end ].

Ltac norm_trace := rewrite ?app_nil_r, <- ?app_assoc; cbn [app].

(** Membership of an event in a trace that ends in a teardown. *)
Ltac trace_elem :=
  norm_trace;
  repeat first
    [ apply list_elem_of_here
    | match goal with
      | Hsd : shutdown_from _ _ _ _ = (_, ?l, _) |- _ ∈ (?l ++ _)%list =>
          apply elem_of_app; left;
          first [ apply (shutdown_from_call _ _ _ _ _ _ _ Hsd)
                | apply (shutdown_from_live _ _ _ _ _ _ _ Hsd); reflexivity ]
      end
    | apply list_elem_of_further ].

(** A leaf in which bytes taken to be ASCII failed to decode. *)
Ltac ascii_contra :=
  match goal with
  | Hj : unicode_join _ _ = inl _, Ha : all_ascii _ = true |- _ =>
      apply unicode_join_inl in Hj; congruence
  | Hu : to_unicode _ = inl _, Ha : is_ascii _ = true |- _ =>
      apply to_unicode_inl in Hu; congruence
  end.


Ltac ok_contra :=
  match goal with
  | H : Some _ = None ↔ None = None |- _ => exfalso; destruct H as [_ H]; by specialize (H eq_refl)
  | H : None = None ↔ Some _ = None |- _ => exfalso; destruct H as [H _]; by specialize (H eq_refl)
  end.


Ltac trace_all :=
  norm_trace;
  repeat first
    [ apply Forall_nil_2
    | apply Forall_cons_2;
      [ cbn; try (rewrite bool_decide_eq_true_2 by done); done | ]
    | apply Forall_app_2
    | match goal with
      | Hsd : shutdown_from _ _ _ _ = (_, ?l, _) |- Forall _ ?l =>
          eapply Forall_impl;
          [ apply (proj1 (shutdown_from_events _ _ _ _ _ _ _ Hsd)) | ];
          cbn [_proc]
      end ].

(** What [writes_after_start] says of each write. *)
Lemma writes_after_start_split sp dr t pre q data post :
  writes_after_start sp dr t = true →
  t = (pre ++ Write q data :: post)%list →
  (sp = Some q ∨ ∃ dl cmd en, Popen dl cmd en (Done q) ∈ pre)
  ∧ (dr = Some q ∨ ∃ r, AttachDrain q r ∈ pre).
Proof.
  revert sp dr t. induction pre as [|e pre IH]; intros sp dr t Hw ->.
  - cbn in Hw. apply andb_true_iff in Hw as [Hw _].
    apply andb_true_iff in Hw as [H1 H2].
    apply bool_decide_eq_true in H1, H2. auto.
  - cbn [app] in Hw.
    assert (Hold : ∀ sp' dr',
      (sp' = Some q ∨ ∃ dl cmd en, Popen dl cmd en (Done q) ∈ pre)
      ∧ (dr' = Some q ∨ ∃ r, AttachDrain q r ∈ pre) →
      (sp' = Some q → sp = Some q ∨ ∃ dl cmd en, e = Popen dl cmd en (Done q)) →
      (dr' = Some q → dr = Some q ∨ ∃ r, e = AttachDrain q r) →
      (sp = Some q ∨ ∃ dl cmd en, Popen dl cmd en (Done q) ∈ e :: pre)
      ∧ (dr = Some q ∨ ∃ r, AttachDrain q r ∈ e :: pre)).
    { intros sp' dr' [H1 H2] Hs Hd. split.
      - destruct H1 as [H1|(dl & cmd & en & H1)].
        + destruct (Hs H1) as [?|(dl & cmd & en & ->)]; [by left|].
          right. exists dl, cmd, en. apply list_elem_of_here.
        + right. exists dl, cmd, en. by apply list_elem_of_further.
      - destruct H2 as [H2|(r & H2)].
        + destruct (Hd H2) as [?|(r & ->)]; [by left|].
          right. exists r. apply list_elem_of_here.
        + right. exists r. by apply list_elem_of_further. }
    destruct e; cbn in Hw;
      try (apply (Hold sp dr); [by eapply IH | by left | by left]).
    + destruct result as [p'| |];
        [|apply (Hold sp dr); [by eapply IH | by left | by left]..].
      apply (Hold (Some p') dr); [by eapply IH | | by left].
      intros [= ->]. right. by exists deadline, command, environ.
    + apply (Hold sp (Some p)); [by eapply IH | by left | ].
      intros [= ->]. right. by exists r.
    + apply andb_true_iff in Hw as [_ Hw].
      apply (Hold sp dr); [by eapply IH | by left | by left].
Qed.

(** ** Facts that do not depend on the library functions *)

Lemma new_session_ok cfg : session_ok (new_session cfg).
Proof. done. Qed.

Lemma shutdown_from_ok h w timeout s s' t r :
  session_ok s → shutdown_from h w timeout s = (s', t, r) → session_ok s'.
Proof.
  intros Hok H. apply shutdown_from_state in H as [_ ->].
  destruct s as [cfg [p|] [rd|]], (h || w_acquire w); done.
Qed.

Lemma teardown_uses_only p e : teardown_of (Some p) e = true → uses_only p e = true.
Proof.
  destruct e; cbn; try done; rewrite !bool_decide_eq_true; congruence.
Qed.

Lemma writes_after_start_teardown o sp dr l rest :
  Forall (λ e, teardown_of o e = true) l →
  o = None ∨ (sp = o ∧ dr = o) →
  writes_after_start sp dr (l ++ rest) = writes_after_start sp dr rest.
Proof.
  induction 1 as [|e l He _ IH]; intros Ho; [done|].
  destruct e; cbn in *; try done; try (by apply IH).
  apply bool_decide_eq_true in He.
  destruct Ho as [->|[-> ->]]; [done|].
  rewrite !bool_decide_eq_true_2 by done. apply IH. auto.
Qed.

Lemma shape_new a : response_shape a (new_response a).
Proof. repeat split. Qed.

Lemma shape_insert a r k x :
  k ∈ ({[ "status"; "load_time"; "paint_time"; "base64"; "error" ]} : gset string) →
  response_shape a r → response_shape a (<[k := x]> r).
Proof.
  intros Hk (Hd & Hu & Hf). unfold response_shape.
  rewrite dom_insert_L, Hd. unfold response_keys.
  split; [set_solver|].
  split; (rewrite lookup_insert_ne; [done|]); intros ->; set_solver.
Qed.

Lemma copy_status_shape a v r r' :
  response_shape a r → copy_status v r = inr r' → response_shape a r'.
Proof.
  unfold copy_status. intros Hs H.
  repeat case_match; simplify_eq; apply shape_insert; done.
Qed.

Lemma copy_field_shape a src dst v r r' :
  dst ∈ ({[ "status"; "load_time"; "paint_time"; "base64"; "error" ]} : gset string) →
  response_shape a r → copy_field src dst v r = inr r' → response_shape a r'.
Proof.
  unfold copy_field. intros Hd Hs H.
  repeat case_match; simplify_eq; [apply shape_insert|]; done.
Qed.

Lemma copy_fields_shape a v r r' o :
  response_shape a r → copy_fields v r = (r', o) → response_shape a r'.
Proof.
  unfold copy_fields, run_steps. intros Hs H.
  destruct (copy_status v r) as [|r1] eqn:H1; simplify_eq; [done|].
  apply copy_status_shape with (a := a) in H1; [|done].
  destruct (copy_field "loadTime" _ v r1) as [|r2] eqn:H2; simplify_eq; [done|].
  apply copy_field_shape with (a := a) in H2; [|done..].
  destruct (copy_field "paintTime" _ v r2) as [|r3] eqn:H3; simplify_eq; [done|].
  apply copy_field_shape with (a := a) in H3; [|done..].
  destruct (copy_field "base64" _ v r3) as [|r4] eqn:H4; simplify_eq; [done|].
  apply copy_field_shape with (a := a) in H4; [|done..].
  destruct (copy_field "error" _ v r4) as [|r5] eqn:H5; simplify_eq; [done|].
  apply copy_field_shape with (a := a) in H5; done.
Qed.

Lemma copy_fields_object a m :
  ∃ r, copy_fields (JObj m) (new_response a) = (r, None)
    ∧ r !! "status" = Some (default (JStr "fail") (m !! "status"))
    ∧ r !! "load_time" = Some (default JNull (m !! "loadTime"))
    ∧ r !! "paint_time" = Some (default JNull (m !! "paintTime"))
    ∧ r !! "base64" = Some (default JNull (m !! "base64"))
    ∧ r !! "error" = Some (default JNull (m !! "error")).
Proof.
  unfold copy_fields, run_steps, copy_status, copy_field, py_contains,
    py_getitem.
  destruct (m !! "status"), (m !! "loadTime"), (m !! "paintTime"),
    (m !! "base64"), (m !! "error"); cbn;
    eexists; (split; [reflexivity|]); repeat split.
Qed.

Lemma uses_only_not_popen p e : uses_only p e = true → is_popen e = false.
Proof. by destruct e. Qed.

Lemma first_write_teardown l rest :
  Forall (λ e, teardown_of None e = true) l →
  first_write (l ++ rest) = first_write rest.
Proof.
  induction 1 as [|e l He _ IH]; [done|]. by destruct e.
Qed.

Ltac open_after_call := unfold after_call.
Ltac open_after_calls := unfold after_calls.

(** ** Facts about [render] and [shutdown] *)

Section RenderFacts.

Variable json_dumps : gmap string json → string.
Variable json_loads : string → exn + json.
Variable decode : string → string → exn + string.
Variable format_exc : exn → string.
Variable dump_nondict : json → exn + string.

Local Abbreviation render :=
  (render json_dumps json_loads decode format_exc dump_nondict).
Local Abbreviation exchange :=
  (exchange json_dumps json_loads format_exc dump_nondict).
Local Abbreviation after_call :=
  (after_call json_dumps json_loads decode format_exc dump_nondict).
Local Abbreviation after_calls :=
  (after_calls json_dumps json_loads decode format_exc dump_nondict).

Lemma render_ok w a s s' t out :
  session_ok s → render w a s = (s', t, out) → session_ok s'.
Proof.
  intros Hok H. destruct s as [cfg pr rd]. unfold session_ok in *.
  simpl in Hok. run_render H; try ok_contra; done.
Qed.

Lemma render_reuses w a s s' t out p :
  _proc s = Some p → render w a s = (s', t, out) →
  Forall (λ e, uses_only p e = true) t.
Proof.
  intros Hp H. destruct s as [cfg pr rd]. simpl in Hp. subst pr.
  run_render H; trace_all; try (intros ?; apply teardown_uses_only).
Qed.

Lemma render_starts w a s s' t out :
  _proc s = None → render w a s = (s', t, out) →
  writes_after_start None None t = true.
Proof.
  intros Hp H. destruct s as [cfg pr rd]. simpl in Hp. subst pr.
  run_render H; norm_trace; cbn [writes_after_start];
    rewrite ?bool_decide_eq_true_2 by done; cbn [andb]; try done.
  all: match goal with
       | Hsd : shutdown_from _ _ _ _ = (_, ?l, _) |- _ =>
           erewrite writes_after_start_teardown;
           [ | apply (proj1 (shutdown_from_events _ _ _ _ _ _ _ Hsd))
             | cbn [_proc]; auto ]
       end; done.
Qed.

Lemma render_spawned w a s s' t response :
  _proc s = None → render w a s = (s', t, inr response) →
  ∃ dl cmd en p r,
    Popen dl cmd en (Done p) ∈ t ∧ AttachDrain p r ∈ t.
Proof.
  intros Hp H. destruct s as [cfg pr rd]. simpl in Hp. subst pr.
  run_render H; do 5 eexists; split; trace_elem.
Qed.

Lemma build_request_timeout cfg a request plt :
  build_request decode cfg a = inr (request, plt) →
  plt = effective_page_load cfg a
  ∧ request !! "timeout" = Some (JInt (effective_page_load cfg a * 1000)).
Proof.
  unfold build_request, effective_page_load. intros H.
  repeat case_match; simplify_eq; by rewrite lookup_insert_eq.
Qed.

(** X23.  When the bounded read of the worker's response line returns no
    line within its deadline, and the lines queued from the diagnostic
    stream are ASCII, [render] returns a response whose status is "fail"
    and whose error is exactly "Render request has timed out."; [shutdown]
    is not called and the process is neither terminated nor killed; the
    session still holds the process the read was made on (a session that
    was running is left exactly as it was), so the next [render] spawns
    nothing and works with that same process.  The session is one in which
    a drain is attached exactly while a process is, as every session
    between two calls is ([after_calls_ok]). *)
Theorem render_timeout_keeps_worker w a s s' t out p d :
  session_ok s →
  all_ascii (w_stderr w) = true →
  render w a s = (s', t, out) →
  ReadLine p d TimedOut ∈ t →
  (∃ response, out = inr response
     ∧ response !! "status" = Some (JStr "fail")
     ∧ response !! "error" = Some (JStr "Render request has timed out."))
  ∧ (∀ timeout, ShutdownCall timeout ∉ t)
  ∧ (∀ q, (Terminate q ∉ t) ∧ (Kill q ∉ t))
  ∧ _proc s' = Some p
  ∧ (is_Some (_proc s) → s' = s)
  ∧ (∀ w2 a2 s2 t2 out2,
       render w2 a2 s' = (s2, t2, out2) →
       Forall (λ e, uses_only p e = true) t2).
Proof.
  intros Hok Hascii H Hin.
  assert (Hnext : _proc s' = Some p → ∀ w2 a2 s2 t2 out2,
       render w2 a2 s' = (s2, t2, out2) →
       Forall (λ e, uses_only p e = true) t2).
  { intros Hp w2 a2 s2 t2 out2 H2. eapply render_reuses; eauto. }
  destruct s as [cfg pr rd]. unfold session_ok in Hok. simpl in Hok.
  run_render H; trace_in Hin; try ok_contra; try ascii_contra.
  all: split; [eexists; split; [reflexivity|]; split; reflexivity|].
  all: split; [intros timeout Hc; trace_in Hc|].
  all: split; [intros q; split; intros Hc; trace_in Hc|].
  all: split; [reflexivity|].
  all: split; [intros [? ?]; by simplify_eq|].
  all: by apply Hnext.
Qed.


(** C3, amended.  For every response line that [json.loads] turns into a
    JSON object, read while the lines queued from the diagnostic stream are
    ASCII, each of the five worker fields is copied into the response on
    its own: status is the object's status, or "fail" when the object has
    none; load_time, paint_time, base64 and error are the object's
    loadTime, paintTime, base64 and error, or [None] when absent.  The
    worker is not torn down. *)
Theorem render_copies_object_fields w a s s' t out p d line m :
  session_ok s →
  all_ascii (w_stderr w) = true →
  render w a s = (s', t, out) →
  ReadLine p d (Done line) ∈ t →
  json_loads line = inr (JObj m) →
  (∃ response, out = inr response
     ∧ response !! "status" = Some (default (JStr "fail") (m !! "status"))
     ∧ response !! "load_time" = Some (default JNull (m !! "loadTime"))
     ∧ response !! "paint_time" = Some (default JNull (m !! "paintTime"))
     ∧ response !! "base64" = Some (default JNull (m !! "base64"))
     ∧ response !! "error" = Some (default JNull (m !! "error")))
  ∧ (∀ timeout, ShutdownCall timeout ∉ t)
  ∧ _proc s' = Some p.
Proof.
  intros Hok Hascii H Hin He.
  destruct (copy_fields_object a m) as (r & Hr & Hfields).
  destruct s as [cfg pr rd]. unfold session_ok in Hok. simpl in Hok.
  run_render H; trace_in Hin; try ok_contra; try congruence;
    try ascii_contra.
  all: match goal with
       | Hl : json_loads ?l = inr ?j |- _ =>
           assert (j = JObj m) as -> by congruence
       end.
  all: try match goal with
       | Hm : received_message _ _ _ = inl _ |- _ => discriminate Hm
       end.
  all: rewrite Hr in *; simplify_eq.
  all: split; [eexists; split; [reflexivity|]; exact Hfields|].
  all: split; [intros timeout Hc; trace_in Hc|].
  all: reflexivity.
Qed.

(** C4.  In a [render] call made while the session holds no process, every
    write to a worker's input comes after that worker was spawned and after
    a drain was attached to it, and a call that returns a response has
    spawned a process and attached a drain; in a call made while the
    session holds a process, no process is spawned. *)
Theorem render_starts_before_first_write w a s s' t out :
  render w a s = (s', t, out) →
  (_proc s = None →
     (∀ pre q data post,
        t = (pre ++ Write q data :: post)%list →
        (∃ dl cmd en, Popen dl cmd en (Done q) ∈ pre)
        ∧ (∃ r, AttachDrain q r ∈ pre))
     ∧ (∀ response, out = inr response →
        ∃ dl cmd en p r,
          Popen dl cmd en (Done p) ∈ t ∧ AttachDrain p r ∈ t))
  ∧ (is_Some (_proc s) → Forall (λ e, is_popen e = false) t).
Proof.
  intros H. split.
  - intros Hp. split.
    + intros pre q data post Ht.
      pose proof (render_starts _ _ _ _ _ _ Hp H) as Hw.
      destruct (writes_after_start_split _ _ _ _ _ _ _ Hw Ht)
        as [[?|?] [?|?]]; done.
    + intros response ->. by eapply render_spawned.
  - intros [p Hp].
    eapply Forall_impl; [by eapply render_reuses|].
    intros e. apply uses_only_not_popen.
Qed.


(** C5.  The deadline given to the bounded read of the response line is
    the page-load timeout in force plus the initial-render-response timeout
    when this call has spawned the process (the session held none), and
    the page-load timeout plus the render-response timeout otherwise. *)
Theorem read_deadline_is_additive w a s s' t out p d r :
  render w a s = (s', t, out) →
  ReadLine p d r ∈ t →
  (_proc s = None
     ∧ (∃ dl cmd en, Popen dl cmd en (Done p) ∈ t)
     ∧ d = effective_page_load (session_config s) a
           + initial_render_response (timeouts (session_config s)))
  ∨ (_proc s = Some p
     ∧ Forall (λ e, is_popen e = false) t
     ∧ d = effective_page_load (session_config s) a
           + render_response (timeouts (session_config s))).
Proof.
  intros H Hin.
  assert (Hrun : ∀ q, _proc s = Some q → Forall (λ e, is_popen e = false) t).
  { intros q Hq. eapply Forall_impl; [by eapply render_reuses|].
    intros e. apply uses_only_not_popen. }
  destruct s as [cfg pr rd].
  cbn [session_config _proc] in *.
  run_render H; trace_in Hin.
  all: match goal with
       | Hb : build_request _ _ _ = inr ?p0 |- _ =>
           destruct p0 as [request plt];
           apply build_request_timeout in Hb as [-> _]
       end; cbn [snd].
  all: first [ left; split; [reflexivity|]; split; [|reflexivity];
               do 3 eexists; trace_elem
             | right; split; [reflexivity|]; split; [|reflexivity];
               by eapply Hrun ].
Qed.

(** C6.  The request [render] sends, the first line it writes to the
    worker, is the JSON text of a request object whose timeout field is
    the page-load timeout in force (the argument, or the configured
    page_load when the argument is [None]) times 1000. *)
Theorem request_timeout_in_milliseconds w a s s' t out data :
  render w a s = (s', t, out) →
  first_write t = Some data →
  ∃ request,
    data = json_dumps request +:+ nl
    ∧ request !! "timeout"
      = Some (JInt (effective_page_load (session_config s) a * 1000)).
Proof.
  intros H Hw. destruct s as [cfg pr rd]. cbn [session_config].
  run_render H; rewrite ?app_nil_r, <- ?app_assoc in Hw;
    cbn [app first_write] in Hw; simplify_eq.
  all: try match goal with
       | Hsd : shutdown_from _ _ _ _ = (_, ?l, _) |- _ =>
           rewrite first_write_teardown in Hw
             by apply (proj1 (shutdown_from_events _ _ _ _ _ _ _ Hsd));
           discriminate Hw
       end.
  all: match goal with
       | Hb : build_request _ _ _ = inr ?p0 |- _ =>
           destruct p0 as [request plt];
           apply build_request_timeout in Hb as [-> Hb]
       end; eexists; (split; [reflexivity|]); done.
Qed.


(** C10.  Whenever [render] returns a response (after a timeout, a
    malformed line or a well-formed one), its keys are exactly url, status,
    load_time, paint_time, base64, format and error, and url and format
    hold the url and img_format arguments. *)
Theorem response_has_seven_keys w a s s' t response :
  render w a s = (s', t, inr response) →
  dom response = response_keys
  ∧ response !! "url" = Some (JStr (url a))
  ∧ response !! "format" = Some (JStr (img_format a)).
Proof.
  intros H. change (response_shape a response).
  destruct s as [cfg pr rd].
  run_render H;
    repeat match goal with
      | Hc : copy_fields _ _ = _ |- _ =>
          pose proof (copy_fields_shape a _ _ _ _ (shape_new a) Hc);
          clear Hc
      end;
    repeat (apply shape_insert; [done|]); first [done | apply shape_new].
Qed.

Lemma after_call_ok s c : session_ok s → session_ok (after_call s c).
Proof.
  intros Hok. destruct c as [w a|w timeout]; open_after_call.
  - destruct (render w a s) as [[s' t] out] eqn:H. cbn.
    exact (render_ok _ _ _ _ _ _ Hok H).
  - destruct (shutdown w timeout s) as [[s' t] r] eqn:H. cbn.
    unfold shutdown in H. exact (shutdown_from_ok _ _ _ _ _ _ _ Hok H).
Qed.

Lemma after_calls_ok cfg cs : session_ok (after_calls cfg cs).
Proof.
  open_after_calls. generalize (new_session_ok cfg).
  generalize (new_session cfg). induction cs as [|c cs IH]; intros s Hs.
  - done.
  - cbn. by apply IH, after_call_ok.
Qed.

(** C8.  [shutdown], called on a session reached from construction by any
    sequence of [render] and [shutdown] calls, never raises and leaves the
    session with no process and no drain, whichever path it takes: with
    the guard and a live process it writes the exit command, polls, and
    terminates the process if it has not exited; with the guard and no
    process it only releases the guard (no drain is attached then); without
    the guard it kills the process.  A drain that was attached is shut
    down.  It is idempotent: a second [shutdown] changes nothing and touches
    neither process nor drain.  A later [render] starts from no process: it
    spawns before it writes. *)
Theorem shutdown_clears_session cfg cs w timeout s1 t1 r1 :
  let s := after_calls cfg cs in
  shutdown w timeout s = (s1, t1, r1) →
  r1 = inr tt
  ∧ _proc s1 = None
  ∧ _stderr_reader s1 = None
  ∧ (∀ rd, _stderr_reader s = Some rd → DrainShutdown rd ∈ t1)
  ∧ (∀ p, _proc s = Some p →
       if w_acquire w
       then Write p ("exit" +:+ nl) ∈ t1 ∧ Poll p ∈ t1
            ∧ (w_poll w = None → Terminate p ∈ t1)
       else Kill p ∈ t1)
  ∧ (_proc s = None → w_acquire w = true →
       t1 = [ShutdownCall timeout; Acquire timeout true; Release])
  ∧ (∀ w2 timeout2 s2 t2 r2,
       shutdown w2 timeout2 s1 = (s2, t2, r2) →
       s2 = s1 ∧ r2 = inr tt ∧ Forall (λ e, is_quiet e = true) t2)
  ∧ (∀ w3 a3 s3 t3 out3,
       render w3 a3 s1 = (s3, t3, out3) →
       writes_after_start None None t3 = true).
Proof.
  intros s H. pose proof (after_calls_ok cfg cs) as Hok. fold s in Hok.
  clearbody s. unfold shutdown in *.
  destruct (shutdown_from_state _ _ _ _ _ _ _ H) as [-> Hs1].
  destruct (shutdown_from_does _ _ _ _ _ _ _ H)
    as (_ & _ & Hlive & Hnone & Hforced).
  cbn [orb] in *.
  assert (Hp1 : _proc s1 = None ∧ _stderr_reader s1 = None).
  { unfold session_ok in Hok. subst s1.
    destruct s as [c [p|] [rd|]], (w_acquire w); cbn in *; try done;
      destruct Hok as [Ha Hb]; try (by specialize (Ha eq_refl));
      by specialize (Hb eq_refl). }
  destruct Hp1 as [Hp1 Hr1].
  split; [done|]. split; [done|]. split; [done|].
  split.
  { intros rd Hrd. destruct (w_acquire w) eqn:Hacq.
    - destruct (_proc s) as [p|] eqn:Hp.
      + by apply (Hlive eq_refl p eq_refl).
      + unfold session_ok in Hok. rewrite Hp in Hok.
        destruct Hok as [Ha _]. specialize (Ha eq_refl). congruence.
    - by apply (Hforced eq_refl). }
  split.
  { intros p Hp. destruct (w_acquire w) eqn:Hacq.
    - destruct (Hlive eq_refl p Hp) as (? & ? & ? & _). done.
    - by apply (Hforced eq_refl). }
  split.
  { intros Hp Hacq. rewrite Hacq in Hnone. by apply Hnone. }
  split.
  - intros w2 timeout2 s2 t2 r2 H2.
    destruct (shutdown_from_state _ _ _ _ _ _ _ H2) as [-> Hs2].
    destruct (shutdown_from_does _ _ _ _ _ _ _ H2)
      as (_ & _ & _ & Hnone2 & _).
    rewrite Hp1 in Hs2. cbn [orb] in *. split.
    + destruct (w_acquire w2); [done|]. subst s2.
      destruct s1 as [c p rd]. cbn in *. by subst.
    + split; [done|].
      unfold shutdown_from, drain_cleanup in H2. unfold_M.
      destruct s1 as [c p rd]. cbn in Hp1, Hr1. subst p rd.
      simp_in H2. destruct (w_acquire w2); simp_in H2; simplify_eq;
        repeat constructor.
  - intros w3 a3 s3 t3 out3 H3. by eapply render_starts.
Qed.

End RenderFacts.

Module ConfigFacts.

Import Config.
Local Open Scope list_scope.

(** *** Dicts *)

Lemma dict_get_set k k' v d :
  dict_get k (dict_set k' v d)
  = if bool_decide (k' = k) then Some v else dict_get k d.
Proof.
  induction d as [|[k0 v0] d IH]; cbn.
  - done.
  - destruct (bool_decide_reflect (k0 = k')) as [->|Hne]; cbn.
    + by destruct (bool_decide (k' = k)).
    + rewrite IH.
      destruct (bool_decide_reflect (k0 = k)) as [->|?]; [|done].
      by rewrite bool_decide_eq_false_2 by congruence.
Qed.

Lemma dict_get_update k items new_items :
  dict_get k (foldr (λ kv d, dict_set kv.1 kv.2 d) items new_items)
  = match dict_get k new_items with
    | Some v => Some v
    | None => dict_get k items
    end.
Proof.
  induction new_items as [|[k0 v0] new_items IH]; cbn; [done|].
  rewrite dict_get_set, IH. by destruct (bool_decide (k0 = k)).
Qed.

(** *** Reading through a heap that has grown *)

Lemma included_app h new : included h (h ++ new).
Proof. intros l o Hl. by apply lookup_app_l_Some. Qed.

Lemma included_trans h1 h2 h3 :
  included h1 h2 → included h2 h3 → included h1 h3.
Proof. unfold included. auto. Qed.

Lemma snapshot_included n h h' v t :
  included h h' → snapshot n h v = Some t → snapshot n h' v = Some t.
Proof.
  intros Hi. revert v t. induction n as [|n IH]; intros [| | |l] t; try done.
  cbn. destruct (h !! l) as [[items|elems]|] eqn:Hl; [| |done];
    rewrite (Hi _ _ Hl).
  - intros (kts & Hk & ->)%fmap_Some. apply fmap_Some. exists kts.
    split; [|done]. apply mapM_Some in Hk. apply mapM_Some.
    eapply Forall2_impl; [done|]. cbn. intros [k v] kt.
    intros (t0 & Ht & ->)%fmap_Some. cbn in *. by rewrite (IH _ _ Ht).
  - intros (ts & Hk & ->)%fmap_Some. apply fmap_Some. exists ts.
    split; [|done]. apply mapM_Some in Hk. apply mapM_Some.
    eapply Forall2_impl; [done|]. cbn. auto.
Qed.

(** *** Copies are made of new objects *)

Lemma older_changed_prefix h h1 new h2 :
  older_changed h (h1 ++ new) h2 → older_changed h h1 h2.
Proof.
  intros Hc l Hl1 Hl2. rewrite Hc; [|done|rewrite length_app; lia].
  by apply lookup_app_l.
Qed.

Lemma older_changed_suffix h new h1 h2 :
  older_changed h h1 h2 → older_changed (h ++ new) h1 h2.
Proof.
  intros Hc l Hl1 Hl2. apply Hc; [|done]. rewrite length_app in Hl1. lia.
Qed.

Lemma copy_all_spec n vs :
  copies_well n →
  ∀ h ts, Forall2 (λ v t, snapshot n h v = Some t) vs ts →
    ∃ h' vs', copy_all (deepcopy n) h vs = Some (h', vs')
      ∧ (∃ new, h' = h ++ new)
      ∧ ∀ h2, older_changed h h' h2 →
          Forall2 (λ v t, snapshot n h2 v = Some t) vs' ts.
Proof.
  intros Hn. induction vs as [|v vs IH]; intros h ts Hts.
  - apply Forall2_nil_inv_l in Hts as ->. exists h, []. cbn.
    split; [done|]. split; [exists []; by rewrite app_nil_r|]. constructor.
  - apply Forall2_cons_inv_l in Hts as (t & ts' & Ht & Hts' & ->).
    destruct (Hn _ _ _ Ht) as (h1 & v' & Hcopy & [new1 ->] & Hread).
    destruct (IH (h ++ new1) ts') as (h2 & vs' & Hcopies & [new2 ->] & Hreads).
    { eapply Forall2_impl; [done|]. intros ? ?.
      apply snapshot_included, included_app. }
    exists ((h ++ new1) ++ new2), (v' :: vs'). cbn. rewrite Hcopy, Hcopies.
    split; [done|]. split; [exists (new1 ++ new2); by rewrite app_assoc|].
    intros hx Hx. constructor.
    + apply Hread. by eapply older_changed_prefix.
    + apply Hreads. by apply older_changed_suffix.
Qed.

Lemma snapshot_items n h (items : list (string * value)) kts :
  mapM (λ kv, pair kv.1 <$> snapshot n h kv.2) items = Some kts ↔
  kts.*1 = items.*1 ∧ Forall2 (λ v t, snapshot n h v = Some t) items.*2 kts.*2.
Proof.
  rewrite mapM_Some. revert kts.
  induction items as [|[k v] items IH]; intros kts.
  - split.
    + intros ->%Forall2_nil_inv_l. split; [done|constructor].
    + intros [Hk _]. destruct kts; [constructor|done].
  - split.
    + intros ([k' t] & kts' & (t0 & Ht & [= <- <-])%fmap_Some & Hr & ->)%Forall2_cons_inv_l.
      apply IH in Hr as [Hk Hv]. cbn. split; [by rewrite Hk|by constructor].
    + intros [Hk Hv]. destruct kts as [|[k' t] kts']; [done|].
      cbn in Hk, Hv. injection Hk as -> Hk.
      apply Forall2_cons in Hv as [Ht Hv]. constructor.
      * cbn. by rewrite Ht.
      * apply IH. done.
Qed.

Lemma zip_fst_snd {A B} (kts : list (A * B)) : zip kts.*1 kts.*2 = kts.
Proof. induction kts as [|[] ? IH]; cbn; [done|by rewrite IH]. Qed.

Lemma deepcopy_spec n : copies_well n.
Proof.
  assert (Hscalar : ∀ m h v t, (∀ l, v ≠ VRef l) →
    snapshot m h v = Some t →
    ∃ h' v', deepcopy m h v = Some (h', v')
      ∧ (∃ new, h' = h ++ new)
      ∧ ∀ h2, older_changed h h' h2 → snapshot m h2 v' = Some t).
  { intros m h v t Hv Ht. exists h, v.
    split; [by destruct v as [| | |l], m; try done; destruct (Hv l)|].
    split; [exists []; by rewrite app_nil_r|].
    intros h2 _. destruct v as [| | |l], m; try done; by destruct (Hv l). }
  induction n as [|n IH]; intros h v t Ht.
  { destruct v; by apply Hscalar. }
  destruct v as [| | |l]; try (by apply Hscalar).
  cbn in Ht.
  - cbn. destruct (h !! l) as [[items|elems]|] eqn:Hl; [| |done].
    + apply fmap_Some in Ht as (kts & Hk & ->).
      apply snapshot_items in Hk as [Hkeys Hvals].
      destruct (copy_all_spec n _ IH _ _ Hvals)
        as (h1 & vs & -> & [new ->] & Hreads).
      eexists _, _. split; [reflexivity|].
      split; [exists (new ++ [ODict (zip items.*1 vs)]); by rewrite app_assoc|].
      intros h2 H2. cbn.
      assert (Hlen : length vs = length items).
      { specialize (Hreads h2 (older_changed_prefix _ _ _ _ H2)).
        apply Forall2_length in Hreads, Hvals.
        rewrite !length_fmap in *. lia. }
      rewrite H2; [|rewrite length_app; lia|rewrite !length_app; cbn; lia].
      rewrite list_lookup_middle by done. cbn.
      apply fmap_Some. exists kts. split; [|done].
      apply snapshot_items.
      rewrite fst_zip, snd_zip by (rewrite length_fmap; lia).
      split; [done|]. apply Hreads. by eapply older_changed_prefix.
    + apply fmap_Some in Ht as (ts & Hk & ->). apply mapM_Some in Hk.
      destruct (copy_all_spec n _ IH _ _ Hk)
        as (h1 & vs & -> & [new ->] & Hreads).
      eexists _, _. split; [reflexivity|].
      split; [exists (new ++ [OList vs]); by rewrite app_assoc|].
      intros h2 H2. cbn.
      rewrite H2; [|rewrite length_app; lia|rewrite !length_app; cbn; lia].
      rewrite list_lookup_middle by done. cbn.
      apply fmap_Some. exists ts. split; [|done]. apply mapM_Some.
      apply Hreads. by eapply older_changed_prefix.
Qed.

Lemma dict_get_zip {A B} (R : A → B → Prop) k ks xs ys :
  length ks = length xs → Forall2 R xs ys →
  match dict_get k (zip ks xs) with
  | Some x => ∃ y, dict_get k (zip ks ys) = Some y ∧ R x y
  | None => dict_get k (zip ks ys) = None
  end.
Proof.
  intros Hlen HR. revert ks Hlen.
  induction HR as [|x y xs ys Hxy _ IH]; intros [|k0 ks] Hlen; try done.
  cbn. destruct (bool_decide (k0 = k)); [by exists y|].
  apply IH. cbn in Hlen. lia.
Qed.

(** C9, amended.  The session's configuration is a deep copy of the
    defaults into which the items of the caller's mapping are assigned
    without being copied.  It is a new dict, and whatever is later done to
    objects that existed before construction (the defaults, the caller's
    mapping, what they hold), a key the caller did not supply still reads
    as the defaults read at construction, while a key the caller supplied
    is still bound to the very value the caller passed: a scalar, or a
    reference to the caller's own container. *)
Theorem init_config_isolation n h PHANTOMJS cl new_items defaults :
  snapshot (S n) h PHANTOMJS = Some (TDict defaults) →
  h !! cl = Some (ODict new_items) →
  ∃ h1 c,
    init_config (S n) h PHANTOMJS (VRef cl) = Some (h1, VRef c)
    ∧ (length h ≤ c < length h1)%nat
    ∧ ∀ h2, older_changed h h1 h2 →
      ∀ k, match dict_get k new_items with
           | Some v => binding h2 (VRef c) k = Some v
           | None => setting n h2 (VRef c) k = dict_get k defaults
           end.
Proof.
  intros Hd Hcl. destruct PHANTOMJS as [| | |l]; try done. cbn in Hd.
  destruct (h !! l) as [[items|elems]|] eqn:Hl; [| |done].
  2:{ by apply fmap_Some in Hd as (? & _ & ?). }
  apply fmap_Some in Hd as (kts & Hk & [= <-]).
  apply snapshot_items in Hk as [Hkeys Hvals].
  destruct (copy_all_spec n _ (deepcopy_spec n) _ _ Hvals)
    as (h1 & vs & Hcopy & [new ->] & Hreads).
  unfold init_config. cbn. rewrite Hl, Hcopy. cbn.
  rewrite (lookup_app_l_Some _ _ _ _ (lookup_app_l_Some _ _ _ _ Hcl)).
  rewrite list_lookup_middle by done.
  eexists _, _. split; [reflexivity|].
  split; [rewrite length_insert, !length_app; cbn; lia|].
  intros h2 H2 k.
  assert (Hc : h2 !! length (h ++ new)
               = Some (ODict (foldr (λ kv d, dict_set kv.1 kv.2 d)
                                    (zip items.*1 vs) new_items))).
  { rewrite H2.
    - apply list_lookup_insert_eq. rewrite !length_app. cbn. lia.
    - rewrite length_app. lia.
    - rewrite length_insert, !length_app. cbn. lia. }
  assert (Hold : older_changed h (h ++ new) h2).
  { intros l' Hl1 Hl2. rewrite H2; [|done|].
    - rewrite list_lookup_insert_ne by lia. by apply lookup_app_l.
    - rewrite length_insert, length_app. lia. }
  specialize (Hreads h2 Hold).
  unfold setting, binding. rewrite Hc, dict_get_update.
  destruct (dict_get k new_items) as [v|]; [done|].
  assert (Hlen : length items.*1 = length vs).
  { apply Forall2_length in Hreads, Hvals. rewrite !length_fmap in *. lia. }
  pose proof (dict_get_zip _ k _ _ _ Hlen Hreads) as Hz.
  rewrite <- Hkeys in Hz |- *. rewrite zip_fst_snd in Hz.
  destruct (dict_get k (zip _ vs)) as [v|].
  - destruct Hz as (t & -> & ->). done.
  - done.
Qed.

Example example_init :
  init_config 2 example_heap (VRef 1) (VRef 3)
  = Some (example_heap_built, VRef 5).
Proof. reflexivity. Qed.

Example example_settings :
  setting 2 example_heap_built (VRef 5) "timeouts"
    = Some (TDict [("page_load", TInt 10)])
  ∧ setting 2 example_heap_later (VRef 5) "timeouts"
    = Some (TDict [("page_load", TInt 99)])
  ∧ setting 2 example_heap_later (VRef 5) "executable"
    = Some (TStr "phantomjs").
Proof. repeat split. Qed.

(** C9 as stated fails: the caller passes a timeout table and, after
    construction, assigns 99 to its page_load; the session's timeouts then
    read 99 where they read 10. *)
Lemma caller_reference_changes_setting : ¬ isolated_from_older_objects.
Proof.
  intros Hiso.
  specialize (Hiso 2%nat example_heap (VRef 1) (VRef 3) _ _ example_init
                example_heap_later).
  assert (Hc : older_changed example_heap example_heap_built
                 example_heap_later).
  { intros l Hl1 Hl2. cbn in Hl1, Hl2.
    do 6 (destruct l as [|l]; [try done; lia|]). lia. }
  by specialize (Hiso Hc "timeouts").
Qed.

End ConfigFacts.

(** ** The theorems at work on sample runs *)

Ltac find_event :=
  vm_compute; repeat first [apply list_elem_of_here | apply list_elem_of_further].

(** A first render whose read times out: the response, no teardown, and
    the worker kept. *)
Lemma render_timeout_keeps_worker_witness :
  (∃ response, timeout_run.2 = inr response
     ∧ response !! "status" = Some (JStr "fail")
     ∧ response !! "error" = Some (JStr "Render request has timed out."))
  ∧ (∀ timeout, ShutdownCall timeout ∉ timeout_run.1.2)
  ∧ _proc timeout_run.1.1 = Some 1%nat.
Proof.
  destruct (render_timeout_keeps_worker sample_dumps sample_loads
              sample_decode sample_format_exc sample_dump_nondict
              (sample_world TimedOut) sample_args (new_session sample_config)
              timeout_run.1.1 timeout_run.1.2 timeout_run.2 1%nat 17)
    as (H1 & H2 & _ & H3 & _).
  - done.
  - reflexivity.
  - reflexivity.
  - find_event.
  - auto.
Defined.


(** A render that reads an object with a status and a base64 only. *)
Lemma render_copies_object_fields_witness :
  ∃ response, ok_run.2 = inr response
    ∧ response !! "status" = Some (JStr "ok")
    ∧ response !! "load_time" = Some JNull
    ∧ response !! "paint_time" = Some JNull
    ∧ response !! "base64" = Some (JStr "aGk=")
    ∧ response !! "error" = Some JNull.
Proof.
  destruct (render_copies_object_fields sample_dumps sample_loads
              sample_decode sample_format_exc sample_dump_nondict
              (sample_world (Done line_ok)) sample_args
              (new_session sample_config)
              ok_run.1.1 ok_run.1.2 ok_run.2 1%nat 17 line_ok
              {[ "status" := JStr "ok"; "base64" := JStr "aGk=" ]})
    as (H1 & _).
  - done.
  - reflexivity.
  - reflexivity.
  - find_event.
  - reflexivity.
  - exact H1.
Defined.

(** The first render spawns process 1 and attaches its drain. *)
Lemma render_starts_before_first_write_witness :
  ∃ dl cmd en p r,
    Popen dl cmd en (Done p) ∈ ok_run.1.2 ∧ AttachDrain p r ∈ ok_run.1.2.
Proof.
  destruct (render_starts_before_first_write sample_dumps sample_loads
              sample_decode sample_format_exc sample_dump_nondict
              (sample_world (Done line_ok)) sample_args
              (new_session sample_config)
              ok_run.1.1 ok_run.1.2 ok_run.2)
    as (H1 & _).
  - reflexivity.
  - destruct (H1 eq_refl) as [_ H]. exact (H (response_of ok_run.2) eq_refl).
Defined.

(** The first render reads with deadline 7 + 10. *)
Lemma read_deadline_is_additive_witness :
  (_proc (new_session sample_config) = None
     ∧ (∃ dl cmd en, Popen dl cmd en (Done 1%nat) ∈ timeout_run.1.2)
     ∧ 17 = 7 + 10)
  ∨ (_proc (new_session sample_config) = Some 1%nat
     ∧ Forall (λ e, is_popen e = false) timeout_run.1.2
     ∧ 17 = 7 + 3).
Proof.
  apply (read_deadline_is_additive sample_dumps sample_loads
           sample_decode sample_format_exc sample_dump_nondict
           (sample_world TimedOut) sample_args (new_session sample_config)
           timeout_run.1.1 timeout_run.1.2 timeout_run.2 1%nat 17 TimedOut).
  - reflexivity.
  - find_event.
Defined.

(** With page_load configured as 7, the request says 7000. *)
Lemma request_timeout_in_milliseconds_witness :
  ∃ request,
    sent_line = sample_dumps request +:+ nl
    ∧ request !! "timeout" = Some (JInt 7000).
Proof.
  apply (request_timeout_in_milliseconds sample_dumps sample_loads
           sample_decode sample_format_exc sample_dump_nondict
           (sample_world (Done line_ok)) sample_args
           (new_session sample_config)
           ok_run.1.1 ok_run.1.2 ok_run.2 sent_line).
  - reflexivity.
  - reflexivity.
Defined.


(** The keys of the response of a successful render. *)
Lemma response_has_seven_keys_witness :
  dom (response_of ok_run.2) = response_keys
  ∧ response_of ok_run.2 !! "url" = Some (JStr "http://example.org/")
  ∧ response_of ok_run.2 !! "format" = Some (JStr "PNG").
Proof.
  apply (response_has_seven_keys sample_dumps sample_loads
           sample_decode sample_format_exc sample_dump_nondict
           (sample_world (Done line_ok)) sample_args
           (new_session sample_config) ok_run.1.1 ok_run.1.2).
  reflexivity.
Defined.

(** [shutdown] after one render, with the guard: the worker is polled and
    its drain shut down. *)
Lemma shutdown_clears_session_witness :
  _proc after_shutdown.1.1 = None
  ∧ _stderr_reader after_shutdown.1.1 = None
  ∧ DrainShutdown 2%nat ∈ after_shutdown.1.2
  ∧ Poll 1%nat ∈ after_shutdown.1.2.
Proof.
  destruct (shutdown_clears_session sample_dumps sample_loads
              sample_decode sample_format_exc sample_dump_nondict
              sample_config
              [CallRender (sample_world (Done line_ok)) sample_args]
              (sample_world TimedOut) None
              after_shutdown.1.1 after_shutdown.1.2 after_shutdown.2)
    as (_ & H1 & H2 & H3 & H4 & _).
  - reflexivity.
  - split; [exact H1|]. split; [exact H2|]. split.
    + apply H3. reflexivity.
    + apply (H4 1%nat eq_refl).
Defined.

(** The defaults and a caller's mapping that supplies the timeout table. *)
Lemma init_config_isolation_witness :
  ∃ h1 c,
    Config.init_config 2 Config.example_heap (Config.VRef 1) (Config.VRef 3)
      = Some (h1, Config.VRef c)
    ∧ (length Config.example_heap ≤ c < length h1)%nat
    ∧ ∀ h2, Config.older_changed Config.example_heap h1 h2 →
        Config.binding h2 (Config.VRef c) "timeouts" = Some (Config.VRef 2)
        ∧ Config.setting 1 h2 (Config.VRef c) "executable"
          = Some (Config.TStr "phantomjs").
Proof.
  destruct (ConfigFacts.init_config_isolation 1 Config.example_heap
              (Config.VRef 1) 3 [("timeouts", Config.VRef 2)]
              [("executable", Config.TStr "phantomjs");
               ("timeouts", Config.TDict [("page_load", Config.TInt 5)])])
    as (h1 & c & Hi & Hc & Hk).
  - reflexivity.
  - reflexivity.
  - exists h1, c. split; [exact Hi|]. split; [exact Hc|].
    intros h2 H2. split.
    + exact (Hk h2 H2 "timeouts").
    + exact (Hk h2 H2 "executable").
Defined.

(** ** Where the code fails two claims *)

(** C1.  The code fails the claim on a render whose read times out while
    the worker has printed, on its diagnostic stream, a line that is not
    ASCII (a check mark before " ok").  The claim has a response returned
    and the worker kept.  The join of line 244 raises
    [UnicodeDecodeError] inside the guarded block: [render] logs the
    error, shuts the worker down, and raises; the session is left without
    the process it held. *)
Theorem timeout_with_check_mark_raises :
  _proc sample_running = Some 1%nat
  ∧ ReadLine 1%nat 10 TimedOut ∈ check_mark_run.1.2
  ∧ check_mark_run.2 = inl (UnicodeDecodeError 0 (Ascii.ascii_of_nat 226))
  ∧ ShutdownCall None ∈ check_mark_run.1.2
  ∧ _proc check_mark_run.1.1 = None.
Proof.
  split; [reflexivity|]. split; [find_event|]. split; [reflexivity|].
  split; [find_event|reflexivity].
Qed.

(** C2.  The code fails the claim on a render that reads a line that is
    not JSON and not ASCII ("caf" and an e acute).  The claim has a
    response returned, with status "fail" and an error that holds the raw
    line.  The message of line 169 is formatted from the raw line and
    raises [UnicodeDecodeError] in the handler of the parsing step:
    [render] returns no response, it logs the error, shuts the worker down
    and raises. *)
Theorem malformed_accent_line_raises :
  sample_loads line_accent = inl (ValueError "No JSON object could be decoded")
  ∧ ReadLine 1%nat 10 (Done line_accent) ∈ accent_run.1.2
  ∧ accent_run.2 = inl (UnicodeDecodeError 3 (Ascii.ascii_of_nat 195))
  ∧ ShutdownCall None ∈ accent_run.1.2
  ∧ _proc accent_run.1.1 = None.
Proof.
  split; [reflexivity|]. split; [find_event|]. split; [reflexivity|].
  split; [find_event|reflexivity].
Qed.

(** ** Where two claims fail as stated *)

(** C3 as stated fails: the line "42" parses, as a number; testing it
    for a key raises [TypeError] inside the parsing step, so the response
    carries an error message although the worker sent no error field, and
    the worker is torn down. *)
Lemma parseable_number_line_is_not_copied :
  ¬ copies_fields_of_every_parseable_line sample_dumps sample_loads
      sample_decode sample_format_exc sample_dump_nondict.
Proof.
  intros H.
  destruct (H (sample_world (Done line_number)) sample_args
              (new_session sample_config)
              number_run.1.1 number_run.1.2 number_run.2 1%nat 17
              line_number (JInt 42))
    as (response & Hout & _ & _ & _ & _ & Herr).
  - done.
  - reflexivity.
  - find_event.
  - reflexivity.
  - assert (response = response_of number_run.2) as -> by (by rewrite Hout).
    destruct number_run_response as (_ & He & _).
    rewrite He in Herr. discriminate Herr.
Qed.

(** * More properties *)

(** ** Text and paths *)

Lemma rfind_succ_0 c s : rfind_succ c s = O ↔ has_char c s = false.
Proof.
  induction s as [|x s IH]; cbn; [done|].
  destruct (rfind_succ c s); destruct (bool_decide (x = c)); cbn;
    intuition congruence.
Qed.

Lemma str_rstrip_empty c s : str_rstrip c s = EmptyString ↔ all_char c s = true.
Proof.
  induction s as [|x s IH]; cbn; [done|].
  destruct (str_rstrip c s); destruct (bool_decide (x = c)); cbn;
    intuition congruence.
Qed.

(** The head [os.path.split] returns is empty exactly for a path without
    a slash. *)
Lemma os_path_split_head p :
  (os_path_split p).1 = EmptyString ↔ has_char slash p = false.
Proof.
  rewrite <- rfind_succ_0. unfold os_path_split. cbn [fst].
  destruct (rfind_succ slash p) as [|i] eqn:Hi.
  - by destruct p.
  - destruct p as [|x p]; [done|]. cbn [str_take].
    rewrite bool_decide_eq_true_2 by done. cbn [andb].
    destruct (all_char slash (String x (str_take i p))) eqn:Ha; cbn [negb].
    + done.
    + split; [|done]. intros He. apply str_rstrip_empty in He. congruence.
Qed.

Lemma append_String x a b : String x a +:+ b = String x (a +:+ b).
Proof. reflexivity. Qed.

Lemma has_char_app c a b :
  has_char c (a +:+ b) = has_char c a || has_char c b.
Proof.
  induction a as [|x a IH]; [done|].
  rewrite append_String. cbn. by rewrite IH, orb_assoc.
Qed.

Lemma endswith_has_char c a : endswith c a = true → has_char c a = true.
Proof.
  induction a as [|x a IH]; cbn; [done|].
  destruct a as [|y a]; [intros ->; done|].
  intros H. rewrite (IH H). apply orb_true_r.
Qed.

Lemma os_path_join_empty b : os_path_join EmptyString b = b.
Proof. unfold os_path_join. by destruct (startswith slash b). Qed.

Lemma os_path_join_has_slash a b :
  a ≠ EmptyString → has_char slash (os_path_join a b) = true.
Proof.
  intros Ha. unfold os_path_join.
  destruct (startswith slash b) eqn:Hb.
  - destruct b as [|x b]; [done|]. cbn in *. by rewrite Hb.
  - rewrite bool_decide_eq_false_2 by done. cbn [orb].
    destruct (endswith slash a) eqn:He; rewrite has_char_app.
    + by rewrite (endswith_has_char _ _ He).
    + cbn. rewrite bool_decide_eq_true_2 by done. apply orb_true_r.
Qed.

(** ** [_which] *)

Lemma which_with_slash h program :
  has_char slash program = true →
  _which h program = inr (if is_exe h program then Some program else None).
Proof.
  intros Hs. unfold _which.
  rewrite bool_decide_eq_true_2; [done|].
  rewrite os_path_split_head. congruence.
Qed.

Lemma which_without_slash h program :
  has_char slash program = false →
  _which h program
  = match environ_PATH h with
    | None => inl (KeyError "'PATH'")
    | Some path => inr (search_path h program (str_split colon path))
    end.
Proof.
  intros Hs. unfold _which.
  rewrite bool_decide_eq_false_2; [done|].
  rewrite os_path_split_head. intros Hc. by apply Hc.
Qed.

Lemma search_path_Some h program paths exe :
  search_path h program paths = Some exe ↔
  ∃ i path, paths !! i = Some path
    ∧ exe = os_path_join (str_strip dquote path) program
    ∧ is_exe h exe = true
    ∧ ∀ j path', (j < i)%nat → paths !! j = Some path' →
        is_exe h (os_path_join (str_strip dquote path') program) = false.
Proof.
  induction paths as [|path paths IH]; cbn [search_path].
  - split; [done|]. by intros (i & path & Hi & _).
  - destruct (is_exe h (os_path_join (str_strip dquote path) program)) eqn:He.
    + split.
      * intros [= <-]. exists 0%nat, path. repeat split; try done. lia.
      * intros ([|i] & path' & Hi & -> & Hx & Hfirst).
        -- by injection Hi as ->.
        -- specialize (Hfirst 0%nat path ltac:(lia) eq_refl). congruence.
    + rewrite IH. split.
      * intros (i & path' & Hi & -> & Hx & Hfirst).
        exists (S i), path'. repeat split; try done.
        intros [|j] path'' Hj Hp; [by injection Hp as <-|].
        apply (Hfirst j); [lia|done].
      * intros ([|i] & path' & Hi & -> & Hx & Hfirst).
        -- injection Hi as ->. congruence.
        -- exists i, path'. repeat split; try done.
           intros j path'' Hj Hp. apply (Hfirst (S j)); [lia|done].
Qed.


Lemma which_Some h program p :
  _which h program = inr (Some p) →
  is_exe h p = true
  ∧ (p = program
     ∨ has_char slash program = false
       ∧ ∃ path dir, environ_PATH h = Some path
           ∧ dir ∈ str_split colon path
           ∧ p = os_path_join (str_strip dquote dir) program).
Proof.
  destruct (has_char slash program) eqn:Hs.
  - rewrite which_with_slash by done.
    destruct (is_exe h program) eqn:He; intros [= <-]. auto.
  - rewrite which_without_slash by done.
    destruct (environ_PATH h) as [path|]; [|done].
    intros [= (i & dir & Hi & -> & Hx & _)%search_path_Some].
    split; [done|]. right. split; [done|]. exists path, dir.
    split; [done|]. split; [|done]. by eapply list_elem_of_lookup_2.
Qed.

(** X1.  What [_which] returns is a file that may be executed: the
    program as it was given, or, for a program named without a slash, the
    program joined to an entry of the search path, the double quotes around
    the entry removed. *)
Theorem which_finds_executable_file h program p :
  _which h program = inr (Some p) →
  isfile h p = true ∧ access_X_OK h p = true
  ∧ (p = program
     ∨ has_char slash program = false
       ∧ ∃ path dir, environ_PATH h = Some path
           ∧ dir ∈ str_split colon path
           ∧ p = os_path_join (str_strip dquote dir) program).
Proof.
  intros [He Hp]%which_Some. apply andb_true_iff in He as [? ?]. auto.
Qed.

(** X2.  A program named with a slash in it is tested as it is given and
    never looked for on the search path: the result is the same whatever
    the search path is, set or not. *)
Theorem which_explicit_path_skips_search h program :
  has_char slash program = true →
  _which h program = inr (if is_exe h program then Some program else None)
  ∧ ∀ path, _which {| isfile := isfile h; access_X_OK := access_X_OK h;
                      environ_PATH := path;
                      on_main_thread := on_main_thread h |} program
            = _which h program.
Proof.
  intros Hs. split; [by apply which_with_slash|].
  intros path. by rewrite !which_with_slash.
Qed.




(** X5.  What [_which] has found, [_which] finds again: given its own
    result, it returns it. *)
Theorem which_accepts_its_result h program p :
  _which h program = inr (Some p) → _which h p = inr (Some p).
Proof.
  intros H. destruct (which_Some _ _ _ H) as [He [->|(Hs & path & dir & Hp & Hd & ->)]].
  - done.
  - destruct (decide (str_strip dquote dir = EmptyString)) as [Hq|Hq].
    + rewrite Hq, os_path_join_empty in *. done.
    + rewrite which_with_slash by by apply os_path_join_has_slash.
      by rewrite He.
Qed.

(** ** The constructor *)


(** ** The drain *)

Lemma to_unicode_error s e :
  to_unicode s = inl e → ∃ position byte, e = UnicodeDecodeError position byte.
Proof.
  unfold to_unicode. destruct (first_non_ascii s) as [[i b]|]; [|done].
  intros [= <-]. eauto.
Qed.

Lemma decode_items_error items e :
  decode_items items = inl e →
  ∃ position byte, e = UnicodeDecodeError position byte.
Proof.
  induction items as [|item items IH]; cbn [decode_items]; [done|].
  destruct (to_unicode item) as [e1|text] eqn:Hi.
  - intros [= <-]. by eapply to_unicode_error.
  - destruct (decode_items items) as [e2|texts]; [|done].
    intros [= <-]. by apply IH.
Qed.

Lemma unicode_join_error sep items e :
  unicode_join sep items = inl e →
  ∃ position byte, e = UnicodeDecodeError position byte.
Proof.
  unfold unicode_join. destruct (decode_items items) as [e1|texts] eqn:H;
    [|done].
  intros [= <-]. by eapply decode_items_error.
Qed.

Lemma to_unicode_inr_ascii s text : to_unicode s = inr text → is_ascii s = true.
Proof.
  unfold to_unicode. destruct (first_non_ascii s) as [[i b]|] eqn:Hf; [done|].
  intros _. by apply first_non_ascii_None.
Qed.

Lemma decode_items_inr items texts :
  decode_items items = inr texts → all_ascii items = true.
Proof.
  revert texts. induction items as [|item items IH]; intros texts; [done|].
  cbn [decode_items all_ascii forallb].
  destruct (to_unicode item) as [e|text] eqn:Hi; [done|].
  destruct (decode_items items) as [e|texts'] eqn:Hr; [done|].
  intros _. apply andb_true_iff. split.
  - by eapply to_unicode_inr_ascii.
  - by eapply IH.
Qed.

Lemma unicode_join_inr sep items joined :
  unicode_join sep items = inr joined → all_ascii items = true.
Proof.
  unfold unicode_join.
  destruct (decode_items items) as [e|texts] eqn:Hd; [done|].
  intros _. by eapply decode_items_inr.
Qed.

Module PipeReaderFacts.

Import PipeReader.

Lemma turn_keeps_lines st :
  (queue (turn st) ++ to_come (turn st))%list = (queue st ++ to_come st)%list.
Proof.
  unfold turn, to_come. destruct st as [p c q [|]]; cbn; [|done].
  destruct p as [|line rest]; cbn.
  - done.
  - destruct (bool_decide (line = EmptyString)); cbn; [done|].
    by rewrite <- app_assoc.
Qed.

Lemma get_keeps_lines st :
  (from_option (λ l, [l]) [] (get st).1 ++ queue (get st).2
     ++ to_come (get st).2)%list
  = (queue st ++ to_come st)%list.
Proof. unfold get, to_come. by destruct st as [p c [|l q] a]. Qed.

Lemma run_keeps_lines schedule st :
  (omap id (run schedule st).1 ++ queue (run schedule st).2
     ++ to_come (run schedule st).2)%list
  = (queue st ++ to_come st)%list.
Proof.
  revert st. induction schedule as [|[|] schedule IH]; intros st; cbn.
  - done.
  - by rewrite IH, turn_keeps_lines.
  - rewrite <- (get_keeps_lines st).
    destruct (get st) as [r st1]. specialize (IH st1).
    destruct (run schedule st1) as [rs st2]. cbn in *.
    destruct r as [l|]; cbn; by rewrite IH.
Qed.

(** X7.  The drain is a first-in first-out channel, however its thread
    and its reader take turns: the lines that the [get] calls have
    returned, then the lines in the queue, then the lines the thread has
    still to read, are at every moment the lines of the start, in their
    order; nothing is lost, repeated or reordered.  For a new reader, what
    [get] has returned so far is a prefix of the lines of the pipe. *)
Theorem drain_is_fifo schedule st :
  (omap id (run schedule st).1 ++ queue (run schedule st).2
     ++ to_come (run schedule st).2)%list
  = (queue st ++ to_come st)%list
  ∧ ∀ p, st = __init__ p → omap id (run schedule st).1 `prefix_of` lines_of p.
Proof.
  split; [apply run_keeps_lines|].
  intros p ->. pose proof (run_keeps_lines schedule (__init__ p)) as H.
  cbn in H. rewrite <- H. by eexists.
Qed.

Lemma enqueue_output_ends n st :
  (length (pipe st) < n)%nat → thread_alive st = true →
  queue (_enqueue_output n st) = (queue st ++ lines_of (pipe st))%list
  ∧ thread_alive (_enqueue_output n st) = false
  ∧ pipe_closed (_enqueue_output n st) = true.
Proof.
  revert st. induction n as [|n IH]; intros [p c q a] Hn Ha; cbn in *; [lia|].
  subst a. unfold turn. cbn. destruct p as [|line rest]; cbn.
  - destruct n; cbn; by rewrite app_nil_r.
  - destruct (bool_decide (line = EmptyString)); cbn.
    + destruct n; cbn; by rewrite app_nil_r.
    + cbn in Hn.
      destruct (IH {| pipe := rest; pipe_closed := c;
                      queue := (q ++ [line])%list; thread_alive := true |})
        as (Hq & Hd & Hc); [cbn; lia|done|].
      cbn in Hq. by rewrite Hq, <- app_assoc.
Qed.

(** X8.  Left to run, the thread of a new reader queues every line of the
    pipe up to its end, in order, then closes the pipe and ends. *)
Theorem enqueue_output_reads_to_the_end n p :
  (length p < n)%nat →
  queue (_enqueue_output n (__init__ p)) = lines_of p
  ∧ thread_alive (_enqueue_output n (__init__ p)) = false
  ∧ pipe_closed (_enqueue_output n (__init__ p)) = true.
Proof. intros Hn. by apply (enqueue_output_ends n (__init__ p)). Qed.

Lemma collect_all n st acc :
  (length (queue st) < n)%nat →
  collect n st acc
  = Some ((acc ++ queue st)%list,
          {| pipe := pipe st; pipe_closed := pipe_closed st; queue := [];
             thread_alive := thread_alive st |}).
Proof.
  revert st acc. induction n as [|n IH]; intros [p c q a] acc Hn; [cbn in *; lia|].
  destruct q as [|l q]; cbn.
  - by rewrite app_nil_r.
  - unfold get. cbn. rewrite IH by (cbn in *; lia). cbn.
    by rewrite <- app_assoc.
Qed.

(** X9.  [_check_stderr] empties the queue, whatever it holds: the reader
    is left with an empty queue, so that a second call at once returns
    [None].  It returns [None] when the queue was empty; when the queued
    lines are all ASCII it returns them joined by newlines in the order
    they were queued; when one of them is not, the join raises
    [UnicodeDecodeError], and the lines taken from the queue are lost.
    The session's [_check_stderr] has this very outcome when the world's
    diagnostic lines are the lines in the queue. *)
Theorem check_stderr_empties_queue n st :
  (length (queue st) < n)%nat →
  let emptied := {| pipe := pipe st; pipe_closed := pipe_closed st;
                    queue := []; thread_alive := thread_alive st |} in
  ∃ outcome,
    _check_stderr_on n st = Some (outcome, emptied)
    ∧ _check_stderr_on n emptied = Some (inr None, emptied)
    ∧ (queue st = [] → outcome = inr None)
    ∧ (queue st ≠ [] → all_ascii (queue st) = true →
         outcome = inr (Some (String.concat nl (queue st))))
    ∧ (all_ascii (queue st) = false →
         ∃ position byte, outcome = inl (UnicodeDecodeError position byte))
    ∧ ∀ w s r, w_stderr w = queue st → _stderr_reader s = Some r →
        _check_stderr w s = (s, [], outcome).
Proof.
  intros Hn emptied. unfold _check_stderr_on.
  rewrite collect_all by done. cbn [app]. eexists. split; [reflexivity|].
  split; [destruct n; [lia|]; done|].
  split; [by intros ->|].
  split.
  { intros Hq Ha. destruct (queue st) as [|l q] eqn:E; [done|].
    by rewrite unicode_join_ascii. }
  split.
  { intros Ha. destruct (queue st) as [|l q] eqn:E; [done|].
    destruct (unicode_join nl (l :: q)) as [e|joined] eqn:Hj.
    - apply unicode_join_error in Hj as (i & b & ->). eauto.
    - apply unicode_join_inr in Hj. congruence. }
  intros w s r Hw Hr. unfold _check_stderr. unfold_M.
  rewrite Hr, Hw. destruct (queue st) as [|l q]; [done|].
  by destruct (unicode_join nl (l :: q)).
Qed.

End PipeReaderFacts.

(** ** More about [render] and [shutdown] *)

Lemma guarded_teardown h w timeout s s' t r :
  shutdown_from h w timeout s = (s', t, r) →
  ∀ depth rest, guarded depth (t ++ rest) = guarded depth rest.
Proof.
  destruct s as [cfg pr rd].
  unfold shutdown_from, drain_cleanup, say_exit, reap. unfold_M.
  intros H. simp_in H.
  destruct (h || w_acquire w), pr as [p|], rd as [rd|]; simp_in H;
    run H; done.
Qed.

Lemma mapM_id_Some {A} (l : list A) : mapM id (Some <$> l) = Some l.
Proof. apply mapM_Some. induction l; by constructor. Qed.

Lemma mapM_command exe (arguments : list string) script :
  mapM id (Some exe :: (Some <$> arguments) ++ [Some script])%list
  = Some (exe :: (arguments ++ [script])%list).
Proof.
  change [Some script] with (Some <$> [script]).
  rewrite <- fmap_app.
  change (Some exe :: (Some <$> (arguments ++ [script])))%list
    with (Some <$> exe :: (arguments ++ [script])%list).
  apply mapM_id_Some.
Qed.

Lemma construct_command_Some w cfg command cmd :
  _construct_command w cfg = inr command →
  mapM id command = Some cmd →
  ∃ exe, w_which w = inr (Some exe)
    ∧ cmd = exe :: (args cfg ++ [script cfg])%list.
Proof.
  unfold _construct_command.
  destruct (w_which w) as [e|[exe|]]; intros [= <-] H; [|done].
  rewrite mapM_command in H. injection H as <-. by exists exe.
Qed.


Section MoreRenderFacts.

Variable json_dumps : gmap string json → string.
Variable json_loads : string → exn + json.
Variable decode : string → string → exn + string.
Variable format_exc : exn → string.
Variable dump_nondict : json → exn + string.

Local Abbreviation render :=
  (render json_dumps json_loads decode format_exc dump_nondict).
Local Abbreviation after_call :=
  (after_call json_dumps json_loads decode format_exc dump_nondict).
Local Abbreviation after_calls :=
  (after_calls json_dumps json_loads decode format_exc dump_nondict).

Lemma render_config w a s s' t out :
  render w a s = (s', t, out) → session_config s' = session_config s.
Proof. intros H. destruct s as [cfg pr rd]. run_render H; done. Qed.

Lemma after_call_config s c :
  session_config (after_call s c) = session_config s.
Proof.
  destruct c as [w a|w timeout]; open_after_call.
  - destruct (render w a s) as [[s' t] out] eqn:H. cbn.
    by eapply render_config.
  - destruct (shutdown w timeout s) as [[s' t] r] eqn:H. cbn.
    apply shutdown_from_state in H as [_ ->].
    by destruct (false || w_acquire w), (_proc s).
Qed.

Lemma after_calls_config cfg cs : session_config (after_calls cfg cs) = cfg.
Proof.
  open_after_calls.
  change cfg with (session_config (new_session cfg)) at 2.
  generalize (new_session cfg). induction cs as [|c cs IH]; intros s; [done|].
  cbn. by rewrite IH, after_call_config.
Qed.

(** X10.  Neither [render] nor [shutdown] assigns the configuration,
    whatever path the call takes: a call leaves the session with the
    configuration it had, and a session has, after any sequence of calls,
    the configuration it was constructed with. *)
Theorem calls_keep_configuration :
  (∀ s c, session_config (after_call s c) = session_config s)
  ∧ (∀ cfg cs, session_config (after_calls cfg cs) = cfg).
Proof.
  split.
  - intros s c. apply after_call_config.
  - intros cfg cs. apply after_calls_config.
Qed.

(** X11.  [render] and [shutdown] keep the discipline of the guard,
    whatever happens: the worker is spawned, written to, read from, waited
    for, polled and terminated only while the guard is held, a guard is
    released only when held, and when the call ends, with a value or an
    exception, the guard is held as many times as when it began. *)
Theorem calls_keep_guard_discipline :
  (∀ w a s, guarded 0 (render w a s).1.2 = Some 0%nat)
  ∧ (∀ w timeout s, guarded 0 (shutdown w timeout s).1.2 = Some 0%nat).
Proof.
  split.
  - intros w a s.
    destruct (render w a s) as [[s' t] out] eqn:H. cbn [fst snd].
    destruct s as [cfg pr rd].
    run_render H; norm_trace; cbn [guarded]; try done.
    all: by erewrite guarded_teardown by eassumption.
  - intros w timeout s.
    destruct (shutdown w timeout s) as [[s' t] r] eqn:H. cbn [fst snd].
    unfold shutdown in H.
    rewrite <- (app_nil_r t). by erewrite guarded_teardown by eassumption.
Qed.



Lemma render_popen w a s s' t out dl cmd en r :
  render w a s = (s', t, out) →
  Popen dl cmd en r ∈ t →
  _proc s = None
  ∧ r = w_popen w
  ∧ dl = process_startup (timeouts (session_config s))
  ∧ en = env (session_config s)
  ∧ ∃ exe, w_which w = inr (Some exe)
      ∧ cmd = exe :: (args (session_config s) ++ [script (session_config s)])%list.
Proof.
  intros H Hin. destruct s as [cfg pr rd]. cbn [_proc session_config].
  run_render H; trace_in Hin.
  all: repeat (split; [done|]).
  all: by eapply construct_command_Some.
Qed.

(** X14.  A session that was constructed spawns what the constructor has
    checked.  On the host where the constructor succeeded, whenever a later
    [render] spawns a worker, the command is the executable that [_which]
    locates, a file that may be executed, then the configured arguments in
    order, then the script, which is a file; the spawn runs under the
    configured startup deadline with the configured environment. *)
Theorem render_spawns_checked_command h cfg s0 handled cs w a s' t out
    dl cmd en r :
  __init__ h cfg = inr (s0, handled) →
  world_on h cfg w →
  render w a (foldl after_call s0 cs) = (s', t, out) →
  Popen dl cmd en r ∈ t →
  ∃ exe, cmd = exe :: (args cfg ++ [script cfg])%list
    ∧ _which h (executable cfg) = inr (Some exe)
    ∧ isfile h exe = true ∧ access_X_OK h exe = true
    ∧ isfile h (script cfg) = true
    ∧ dl = process_startup (timeouts cfg)
    ∧ en = env cfg.
Proof.
  intros Hi Hw H Hin. unfold __init__, world_on in *.
  rewrite Hw in Hi.
  destruct (w_which w) as [e|found] eqn:Hfound; [done|].
  destruct (py_not found); [done|].
  destruct (isfile h (script cfg)) eqn:Hs; [|done]. cbn in Hi.
  injection Hi as <- <-.
  generalize (after_calls_config cfg cs). open_after_calls. intros Hc.
  destruct (render_popen _ _ _ _ _ _ _ _ _ _ H Hin)
    as (_ & _ & -> & -> & exe & Hx & ->).
  rewrite Hc. exists exe. assert (found = Some exe) as -> by congruence.
  destruct (which_Some _ _ _ Hw) as [[? ?]%andb_true_iff _]. done.
Qed.

(** X15.  The handler of signals stops the worker and ends the host
    process.  Run on a session reached by any sequence of calls, it calls
    [shutdown] with a timeout of zero, which does not raise, so that the
    host process always ends, with status 0; by then the session holds
    neither process nor drain, and a process it held has been polled, and
    terminated if it was still running, when the guard was free, and killed
    when it was not. *)
Theorem signal_handler_stops_worker cfg cs w :
  let s := after_calls cfg cs in
  let r := _on_signal w s in
  r.2 = inr 0
  ∧ _proc r.1.1 = None
  ∧ _stderr_reader r.1.1 = None
  ∧ ShutdownCall (Some 0) ∈ r.1.2
  ∧ Acquire (Some 0) (w_acquire w) ∈ r.1.2
  ∧ ∀ p, _proc s = Some p →
      if w_acquire w
      then Poll p ∈ r.1.2 ∧ (w_poll w = None → Terminate p ∈ r.1.2)
      else Kill p ∈ r.1.2.
Proof.
  intros s r. pose proof (after_calls_ok json_dumps json_loads decode
    format_exc dump_nondict cfg cs) as Hok. fold s in Hok. clearbody s.
  subst r. unfold _on_signal, shutdown. unfold_M.
  destruct (shutdown_from false w (Some 0) s) as [[s1 t1] r1] eqn:H.
  destruct (shutdown_from_state _ _ _ _ _ _ _ H) as [-> Hs1].
  destruct (shutdown_from_does _ _ _ _ _ _ _ H)
    as (Hcall & Hacq & Hlive & _ & Hforced).
  cbn [orb fst snd] in *. rewrite app_nil_r.
  split; [done|].
  assert (_proc s1 = None ∧ _stderr_reader s1 = None) as [? ?].
  { unfold session_ok in Hok. subst s1.
    destruct s as [c [p|] [rd|]], (w_acquire w); cbn in *; try done;
      destruct Hok as [Ha Hb]; try (by specialize (Ha eq_refl));
      by specialize (Hb eq_refl). }
  repeat (split; [done|]).
  intros p Hp. destruct (w_acquire w).
  - destruct (Hlive eq_refl p Hp) as (_ & ? & ? & _). done.
  - by apply (Hforced eq_refl).
Qed.

End MoreRenderFacts.

(** ** The exchange *)

Ltac before_write l :=
  lazymatch l with
  | Write _ _ :: _ => constr:(@nil event)
  | ?e :: ?l' => let r := before_write l' in constr:(e :: r)
  end.

Lemma teardown_not_readline o e :
  teardown_of o e = true → is_readline e = false.
Proof. by destruct e. Qed.

Section ExchangeFacts.

Variable json_dumps : gmap string json → string.
Variable json_loads : string → exn + json.
Variable decode : string → string → exn + string.
Variable format_exc : exn → string.
Variable dump_nondict : json → exn + string.

Local Abbreviation render :=
  (render json_dumps json_loads decode format_exc dump_nondict).

(** X16.  [render] reads a response only from the process to which it has
    just written and flushed the request: in the trace of a call, the
    bounded read comes right after the flush, which comes right after the
    write of the request line, all three on the same process; there is no
    other read in the call and no write before that of the request. *)
Theorem read_follows_request w a s s' t out p d r :
  render w a s = (s', t, out) →
  ReadLine p d r ∈ t →
  ∃ pre request post,
    t = (pre ++ [Write p (json_dumps request +:+ nl); Flush p;
                 ReadLine p d r] ++ post)%list
    ∧ r = w_readline w
    ∧ Forall (λ e, is_readline e = false) (pre ++ post)
    ∧ (∀ q data, Write q data ∉ pre).
Proof.
  intros H Hin. destruct s as [cfg pr rd].
  run_render H; trace_in Hin; norm_trace.
  all: match goal with
       | |- ∃ pre request post, ?t = _ ∧ _ =>
           let pre := before_write t in exists pre
       end; eexists; eexists.
  all: split; [cbn [app]; reflexivity|].
  all: split; [reflexivity|].
  all: split;
         [ trace_all; try (intros ?; apply teardown_not_readline)
         | intros q data Hc;
           repeat (apply elem_of_cons in Hc as [Hc|Hc]; [discriminate Hc|]);
           by apply elem_of_nil in Hc ].
Qed.

End ExchangeFacts.

(** ** The diagnostic lines *)

Lemma shutdown_from_with_stderr h lines w timeout :
  shutdown_from h (with_stderr lines w) timeout = shutdown_from h w timeout.
Proof. reflexivity. Qed.

Ltac simp_world H :=
  cbn [with_stderr w_which w_popen w_pipe_reader w_write w_flush w_readline
       w_stderr w_debug w_acquire w_exit_write w_exit_flush w_wait w_poll]
    in H.

Section Diagnostics.

Variable json_dumps : gmap string json → string.
Variable json_loads : string → exn + json.
Variable decode : string → string → exn + string.
Variable format_exc : exn → string.
Variable dump_nondict : json → exn + string.

Local Abbreviation render :=
  (render json_dumps json_loads decode format_exc dump_nondict).

(** X17.  As long as they are ASCII, the lines the worker prints on its
    diagnostic stream are logged and nothing else: whatever such lines the
    drain has queued, [render] returns the same response or raises the
    same exception, leaves the session in the same state, and does the
    same to the worker; only what it logs at the debug level differs. *)
Theorem render_ignores_diagnostics lines w a s :
  all_ascii lines = true →
  all_ascii (w_stderr w) = true →
  (render (with_stderr lines w) a s).1.1 = (render w a s).1.1
  ∧ (render (with_stderr lines w) a s).2 = (render w a s).2
  ∧ without_debug (render (with_stderr lines w) a s).1.2
    = without_debug (render w a s).1.2.
Proof.
  intros Hlines Hascii.
  destruct (render w a s) as [[s1 t1] o1] eqn:H1.
  destruct (render (with_stderr lines w) a s) as [[s2 t2] o2] eqn:H2.
  cbn [fst snd]. destruct s as [cfg pr rd].
  unfold_render H1. unfold_render H2.
  change (_construct_command (with_stderr lines w))
    with (_construct_command w) in H2.
  simp_world H2. rewrite ?shutdown_from_with_stderr in H2.
  repeat (step_render H1; try simp_in H2).
  all: try ascii_contra.
  all: try simp_in H2; repeat step_render H2; simplify_eq.
  all: try ascii_contra.
  all: repeat split; try done.
Qed.

End Diagnostics.

(** ** The request *)

Section RequestFacts.

Variable decode : string → string → exn + string.

(** X18.  The request [render] builds.  It always carries the url, the
    width, the height and the format as they were passed, and a timeout;
    it carries html, userAgent, headers and cookies exactly when the
    argument is not [None], with the value passed, text given as unicode
    being taken as it is, whatever the encoding named, and bytes being
    decoded; it has no other key.  Building it fails only when html is
    given as bytes that cannot be decoded, with the exception of the
    decoding. *)
Theorem build_request_fields cfg a :
  match build_request decode cfg a with
  | inr (request, _) =>
      request !! "url" = Some (JStr (url a))
      ∧ request !! "width" = Some (JInt (width a))
      ∧ request !! "height" = Some (JInt (height a))
      ∧ request !! "format" = Some (JStr (img_format a))
      ∧ is_Some (request !! "timeout")
      ∧ request !! "html"
        = match html a with
          | None => None
          | Some (HtmlText text) => Some (JStr text)
          | Some (HtmlBytes b) =>
              match decode (html_encoding a) b with
              | inr text => Some (JStr text)
              | inl _ => None
              end
          end
      ∧ request !! "userAgent" = JStr <$> user_agent a
      ∧ request !! "headers" = headers a
      ∧ request !! "cookies" = cookies a
      ∧ dom request ⊆ request_keys
  | inl e =>
      ∃ b, html a = Some (HtmlBytes b) ∧ decode (html_encoding a) b = inl e
  end.
Proof.
  unfold build_request.
  destruct (html a) as [[text|b]|];
    [|destruct (decode (html_encoding a) b) as [e|text] eqn:Hd; [by exists b|]|].
  all: destruct (user_agent a), (headers a), (cookies a).
  all: repeat (split; [done|]).
  all: rewrite ?dom_insert_L, ?dom_singleton_L; unfold request_keys; set_solver.
Qed.

End RequestFacts.

(** ** The two ways of [shutdown] *)

Ltac in_trace H :=
  repeat first
    [ apply elem_of_nil in H; destruct H
    | apply elem_of_cons in H as [H|H]; [simplify_eq|] ].

Ltac trace_has :=
  solve [repeat first [apply list_elem_of_here | apply list_elem_of_further]].

(** X19.  [shutdown] is polite with the guard and forceful without it,
    never both.  With the guard it never kills: it flushes only after the
    exit line was written, waits, one second, only after the flush, and
    whether or not these succeeded terminates the process exactly when the
    poll finds it still running, and releases the guard.  Without the guard
    it kills the process and shuts the drain down, and does nothing else:
    it does not write, wait, poll, terminate or release. *)
Theorem shutdown_is_polite_or_forceful w timeout s :
  let t := (shutdown w timeout s).1.2 in
  if w_acquire w then
    (∀ q, Kill q ∉ t)
    ∧ (∀ q, Flush q ∈ t ↔ _proc s = Some q ∧ w_exit_write w = None)
    ∧ (∀ q d, Wait q d ∈ t ↔
         _proc s = Some q ∧ d = 1
         ∧ w_exit_write w = None ∧ w_exit_flush w = None)
    ∧ (∀ q, Terminate q ∈ t ↔ _proc s = Some q ∧ w_poll w = None)
    ∧ Release ∈ t
  else
    (∀ q, Kill q ∈ t ↔ _proc s = Some q)
    ∧ Forall (λ e, is_forced e = true) t.
Proof.
  destruct s as [cfg pr rd].
  unfold shutdown, shutdown_from, drain_cleanup, say_exit, reap. unfold_M.
  cbn [_proc _stderr_reader session_config set_proc set_stderr_reader
       fst snd orb].
  destruct (w_acquire w), pr as [p|], rd as [rd|],
    (w_exit_write w) as [e1|], (w_exit_flush w) as [e2|],
    (w_wait w) as [code| |e3], (w_poll w) as [status|]; cbn.
  all: repeat match goal with
              | |- _ ∧ _ => split
              | |- _ ↔ _ => split
              | |- _ ∉ _ => intros ?
              | |- ∀ _, _ => intros ?
              end.
  all: repeat match goal with
              | H : _ ∧ _ |- _ => destruct H
              end; simplify_eq.
  all: try match goal with
           | H : _ ∈ _ |- _ => in_trace H
           end.
  all: try done; try trace_has; repeat constructor.
Qed.

Lemma teardown_held_polite w timeout s s' t r :
  shutdown_from true w timeout s = (s', t, r) →
  (∀ q, Kill q ∉ t)
  ∧ (∀ q, Terminate q ∈ t → w_poll w = None)
  ∧ (∀ x, ShutdownCall x ∈ t → x = timeout).
Proof.
  destruct s as [cfg pr rd].
  unfold shutdown_from, drain_cleanup, say_exit, reap. unfold_M.
  intros H. simp_in H.
  destruct pr as [p|], rd as [rd|]; simp_in H; run H.
  all: split; [|split]; intros q Hq; in_trace Hq; done.
Qed.

Ltac in_trace_app H :=
  repeat first
    [ apply elem_of_nil in H; destruct H
    | apply elem_of_cons in H as [H|H]; [simplify_eq|]
    | apply elem_of_app in H as [H|H] ].

Section Politeness.

Variable json_dumps : gmap string json → string.
Variable json_loads : string → exn + json.
Variable decode : string → string → exn + string.
Variable format_exc : exn → string.
Variable dump_nondict : json → exn + string.

Local Abbreviation render :=
  (render json_dumps json_loads decode format_exc dump_nondict).

(** X20.  [render] never kills the worker.  When it tears the worker
    down, it does so through [shutdown] called without a timeout and with
    the guard in hand, and the worker is terminated only when the poll
    found it still running. *)
Theorem render_never_kills w a s :
  let t := (render w a s).1.2 in
  (∀ q, Kill q ∉ t)
  ∧ (∀ q, Terminate q ∈ t → w_poll w = None ∧ ShutdownCall None ∈ t)
  ∧ (∀ timeout, ShutdownCall timeout ∈ t → timeout = None).
Proof.
  destruct (render w a s) as [[s' t] out] eqn:H. cbn [fst snd].
  destruct s as [cfg pr rd].
  run_render H.
  all: split; [intros q Hq; in_trace_app Hq|split; intros q Hq].
  all: try (in_trace_app Hq).
  all: match goal with
       | Hsd : shutdown_from true _ _ _ = (_, ?l, _), Hk : _ ∈ ?l |- _ =>
           destruct (teardown_held_polite _ _ _ _ _ _ Hsd) as (Hn & Ht & Hc)
       end.
  all: first [ by apply Hn in Hq
             | split; [by apply Ht in Hq|trace_elem]
             | by apply Hc in Hq ].
Qed.

End Politeness.

(** ** The constructor and the objects it is given *)

Module ConfigFrame.

Import Config.
Local Open Scope list_scope.

Lemma copy_all_grows copy :
  (∀ h v h' v', copy h v = Some (h', v') → ∃ new, h' = h ++ new) →
  ∀ vs h h' vs', copy_all copy h vs = Some (h', vs') → ∃ new, h' = h ++ new.
Proof.
  intros Hcopy. induction vs as [|v vs IH]; intros h h' vs' H; cbn in H.
  - injection H as <- <-. exists []. by rewrite app_nil_r.
  - destruct (copy h v) as [[h1 v1]|] eqn:H1; [|done].
    destruct (copy_all copy h1 vs) as [[h2 vs2]|] eqn:H2; [|done].
    injection H as <- <-.
    apply Hcopy in H1 as [new1 ->]. apply IH in H2 as [new2 ->].
    exists (new1 ++ new2). by rewrite app_assoc.
Qed.

Lemma deepcopy_grows n :
  ∀ h v h' v', deepcopy n h v = Some (h', v') →
    (∃ new, h' = h ++ new)
    ∧ ∀ c, v' = VRef c → (length h ≤ c < length h')%nat.
Proof.
  induction n as [|n IH]; intros h v h' v' H.
  - destruct v; cbn in H; try done; injection H as <- <-;
      (split; [exists []; by rewrite app_nil_r|done]).
  - destruct v as [| | |l]; cbn in H;
      try (injection H as <- <-;
           split; [exists []; by rewrite app_nil_r|done]).
    assert (Hg : ∀ h v h' v', deepcopy n h v = Some (h', v') →
                 ∃ new, h' = h ++ new) by (intros; by eapply IH).
    destruct (h !! l) as [[items|elems]|]; [| |done].
    + destruct (copy_all (deepcopy n) h items.*2) as [[h1 vs]|] eqn:Hc;
        [|done].
      injection H as <- <-.
      apply (copy_all_grows _ Hg) in Hc as [new ->].
      split; [exists (new ++ [ODict (zip items.*1 vs)]); by rewrite app_assoc|].
      intros c [= <-]. rewrite !length_app. cbn. lia.
    + destruct (copy_all (deepcopy n) h elems) as [[h1 vs]|] eqn:Hc; [|done].
      injection H as <- <-.
      apply (copy_all_grows _ Hg) in Hc as [new ->].
      split; [exists (new ++ [OList vs]); by rewrite app_assoc|].
      intros c [= <-]. rewrite !length_app. cbn. lia.
Qed.

(** X21.  The constructor changes no object that existed before it ran:
    the defaults and the mapping of the caller, and all they reach, are
    afterwards what they were, so that the defaults serve the next session
    unchanged.  The configuration of the session is a dict that did not
    exist before. *)
Theorem constructor_leaves_older_objects fuel h PHANTOMJS config h1 c :
  init_config fuel h PHANTOMJS config = Some (h1, c) →
  (∀ l, (l < length h)%nat → h1 !! l = h !! l)
  ∧ (∀ n v t, snapshot n h v = Some t → snapshot n h1 v = Some t)
  ∧ ∃ l, c = VRef l ∧ (length h ≤ l < length h1)%nat.
Proof.
  unfold init_config. intros H.
  destruct (deepcopy fuel h PHANTOMJS) as [[h0 [| | |l]]|] eqn:Hd; try done.
  destruct (dict_update h0 l config) as [h2|] eqn:Hu; [|done].
  injection H as <- <-.
  apply deepcopy_grows in Hd as [[new ->] Hl]. specialize (Hl l eq_refl).
  unfold dict_update in Hu. destruct config as [| | |ls]; try done.
  destruct ((h ++ new) !! ls) as [[new_items|]|]; try done.
  destruct ((h ++ new) !! l) as [[items|]|]; try done.
  injection Hu as <-.
  assert (Hsame : ∀ l', (l' < length h)%nat →
            <[l:=ODict (foldr (λ kv d, dict_set kv.1 kv.2 d) items new_items)]>
              (h ++ new) !! l' = h !! l').
  { intros l' Hl'. rewrite list_lookup_insert_ne by lia.
    by apply lookup_app_l. }
  split; [done|]. split.
  - intros n v t. apply ConfigFacts.snapshot_included.
    intros l' o Ho. rewrite Hsame; [done|]. by eapply lookup_lt_Some.
  - exists l. split; [done|]. by rewrite length_insert.
Qed.

End ConfigFrame.

(** ** Lines that are JSON, but no object *)


Section NonObject.

Variable json_dumps : gmap string json → string.
Variable json_loads : string → exn + json.
Variable decode : string → string → exn + string.
Variable format_exc : exn → string.
Variable dump_nondict : json → exn + string.

Local Abbreviation render :=
  (render json_dumps json_loads decode format_exc dump_nondict).


End NonObject.


(** ** The further theorems at work on samples *)

(** The executable of the sample host is found under the second entry of
    its search path. *)
Lemma which_finds_executable_file_witness :
  isfile sample_host "/usr/bin/phantomjs" = true
  ∧ access_X_OK sample_host "/usr/bin/phantomjs" = true.
Proof.
  destruct (which_finds_executable_file sample_host "phantomjs"
              "/usr/bin/phantomjs") as (H1 & H2 & _).
  - reflexivity.
  - auto.
Defined.

(** A program named with its directory is found with no search path. *)
Lemma which_explicit_path_skips_search_witness :
  _which {| isfile := isfile sample_host;
            access_X_OK := access_X_OK sample_host;
            environ_PATH := None;
            on_main_thread := on_main_thread sample_host |}
         "/usr/bin/phantomjs"
  = _which sample_host "/usr/bin/phantomjs".
Proof.
  destruct (which_explicit_path_skips_search sample_host "/usr/bin/phantomjs")
    as (_ & H).
  - reflexivity.
  - exact (H None).
Defined.


(** What was found for the bare name is found again. *)
Lemma which_accepts_its_result_witness :
  _which sample_host "/usr/bin/phantomjs" = inr (Some "/usr/bin/phantomjs").
Proof.
  apply (which_accepts_its_result sample_host "phantomjs"). reflexivity.
Defined.

(** The thread of a reader on the sample pipe queues its two lines. *)
Lemma enqueue_output_reads_to_the_end_witness :
  PipeReader.queue sample_reader = sample_pipe
  ∧ PipeReader.thread_alive sample_reader = false
  ∧ PipeReader.pipe_closed sample_reader = true.
Proof.
  apply (PipeReaderFacts.enqueue_output_reads_to_the_end 3 sample_pipe).
  cbn. lia.
Defined.

(** Its two lines are returned joined, and then nothing. *)
Lemma check_stderr_empties_queue_witness :
  ∃ emptied,
    _check_stderr_on 3 sample_reader
    = Some (inr (Some ("warning" +:+ nl +:+ nl +:+ "error" +:+ nl)), emptied)
    ∧ _check_stderr_on 3 emptied = Some (inr None, emptied).
Proof.
  destruct (PipeReaderFacts.check_stderr_empties_queue 3 sample_reader)
    as (outcome & H1 & H2 & _ & H3 & _).
  - vm_compute. lia.
  - eexists. split; [|exact H2].
    rewrite H1, H3; [reflexivity|discriminate|reflexivity].
Defined.



(** The session constructed on the sample host spawns the executable that
    was found there. *)
Lemma render_spawns_checked_command_witness :
  ∃ exe, ["/usr/bin/phantomjs"; "--ssl-protocol=any"; "render.js"]
         = exe :: (args sample_config ++ [script sample_config])%list
    ∧ _which sample_host (executable sample_config) = inr (Some exe)
    ∧ isfile sample_host exe = true
    ∧ access_X_OK sample_host exe = true
    ∧ isfile sample_host (script sample_config) = true
    ∧ 20 = process_startup (timeouts sample_config)
    ∧ [("LANG", "C")] = env sample_config.
Proof.
  apply (render_spawns_checked_command sample_dumps sample_loads
           sample_decode sample_format_exc sample_dump_nondict
           sample_host sample_config (new_session sample_config)
           [SIGABRT; SIGINT; SIGTERM] []
           (sample_world (Done line_ok)) sample_args
           ok_run.1.1 ok_run.1.2 ok_run.2 20
           ["/usr/bin/phantomjs"; "--ssl-protocol=any"; "render.js"]
           [("LANG", "C")] (Done 1%nat)).
  - reflexivity.
  - reflexivity.
  - reflexivity.
  - find_event.
Defined.

(** The read of the first render follows the write and the flush. *)
Lemma read_follows_request_witness :
  ∃ pre request post,
    ok_run.1.2
    = (pre ++ [Write 1%nat (sample_dumps request +:+ nl); Flush 1%nat;
               ReadLine 1%nat 17 (Done line_ok)] ++ post)%list
    ∧ Forall (λ e, is_readline e = false) (pre ++ post).
Proof.
  destruct (read_follows_request sample_dumps sample_loads
              sample_decode sample_format_exc sample_dump_nondict
              (sample_world (Done line_ok)) sample_args
              (new_session sample_config)
              ok_run.1.1 ok_run.1.2 ok_run.2 1%nat 17 (Done line_ok))
    as (pre & request & post & H1 & _ & H2 & _).
  - reflexivity.
  - find_event.
  - exists pre, request, post. auto.
Defined.

(** The constructor on the sample heap leaves its four objects alone. *)
Lemma constructor_leaves_older_objects_witness :
  (∀ l, (l < 4)%nat → Config.example_heap_built !! l = Config.example_heap !! l)
  ∧ ∃ l, Config.VRef 5 = Config.VRef l ∧ (4 ≤ l < 6)%nat.
Proof.
  destruct (ConfigFrame.constructor_leaves_older_objects 2 Config.example_heap
              (Config.VRef 1) (Config.VRef 3) Config.example_heap_built
              (Config.VRef 5))
    as (H1 & _ & H2).
  - reflexivity.
  - split; [exact H1|exact H2].
Defined.


(** The first render answers the same with the two sample lines queued. *)
Lemma render_ignores_diagnostics_witness :
  (sample_render (with_stderr sample_pipe (sample_world (Done line_ok)))
     sample_args (new_session sample_config)).2
  = ok_run.2.
Proof.
  destruct (render_ignores_diagnostics sample_dumps sample_loads
              sample_decode sample_format_exc sample_dump_nondict
              sample_pipe (sample_world (Done line_ok)) sample_args
              (new_session sample_config))
    as (_ & H & _).
  - reflexivity.
  - reflexivity.
  - exact H.
Defined.
